(** * STAMINA model builders: a shallow embedding and its properties

    The development embeds the two model builders of the repository:

    - [Legacy]: [src/StaminaModelBuilder.cpp], the first explorer, which
      keeps the reachability estimates in [piMap] and writes the matrix
      rows while it explores;
    - [Builder]: [src/stamina/builder/StaminaModelBuilder.cpp], the base
      class of the later builders, which buffers transitions in
      [transitionsToAdd] and owns the absorbing state;
    - [PropertyMembers]: the property formula and expression that the
      base class keeps beside them;
    - [Explorer]: the exploring pass of the builders derived from the
      base class, which [StaminaPriorityModelBuilder.h] declares and
      the sources do not define; it follows the specification, over
      the functions of [Builder].

    STORM's next-state generator and sparse-matrix builder are outside the
    repository.  The generator is a value of type [Generator]; the matrix
    builder is the sequence of its [addNextValue] calls. *)

From Stdlib Require Import ZArith NArith Floats String Ascii Sorted.
From stdpp Require Import gmap list pretty.

#[local] Set Warnings "-inexact-float".

Local Open Scope string_scope.
Local Open Scope list_scope.
Local Open Scope N_scope.

(** ** Data shared by both builders *)

(** [storm::generator::CompressedState] is a [storm::storage::BitVector]. *)
Abbreviation CompressedState := (list bool) (only parsing).

(** [StateType] is [uint32_t] in the only instantiation of the templates. *)
Abbreviation StateType := N (only parsing).

Definition StateType_modulus : N := 2 ^ 32.

(** [static_cast<StateType>(n)] of a [std::size_t]. *)
Definition to_StateType (n : nat) : StateType := N.of_nat n mod StateType_modulus.

(** [ValueType] is [double] in the only instantiation of the templates. *)
Abbreviation ValueType := float (only parsing).

(** *** Single-precision values

    A C++ [float] is carried by the binary64 number of the same value.
    Conversion from [double] rounds to binary32 (24 bits of precision,
    exponents up to 128), to nearest and ties to even; the conversion
    back is exact. *)
Definition binary32_round (x : spec_float) : spec_float :=
  match x with
  | S754_finite s m e => binary_round 24 128 s m e
  | _ => x
  end.

Definition to_float (x : ValueType) : float :=
  SF2Prim (binary32_round (Prim2SF x)).

(** [float * float] and [float + float] (in [+=]) round once to binary64
    and once to binary32, which for these precisions is the correctly
    rounded single-precision result. *)
Definition float_mul (x y : float) : float := to_float (PrimFloat.mul x y).
Definition float_add (x y : float) : float := to_float (PrimFloat.add x y).

(** *** Messages and oracle calls

    [StaminaMessages] prints to the standard error stream; calls of the
    generator are recorded in the same trace. *)
Inductive Severity := SevError | SevWarning | SevInfo.

Inductive Event :=
| Message (sev : Severity) (text : string)
| OracleInitialStates
| OracleLoad (s : CompressedState)
| OracleExpand (s : CompressedState).

Definition error (text : string) : Event := Message SevError text.
Definition warning (text : string) : Event := Message SevWarning text.
Definition info (text : string) : Event := Message SevInfo text.

(** The states the generator was asked to expand, oldest first. *)
Fixpoint oracleCalls (tr : list Event) : list CompressedState :=
  match tr with
  | [] => []
  | OracleExpand s :: tr' => s :: oracleCalls tr'
  | _ :: tr' => oracleCalls tr'
  end.

Definition errors (tr : list Event) : list string :=
  omap (fun e => match e with Message SevError t => Some t | _ => None end) tr.

(** How a call ends: it returns, or [errorAndExit] ends the process, or
    an exception leaves the function. *)
Inductive Outcome (S A : Type) :=
| Return (a : A) (b : S)
| Exit (text : string) (b : S)
| Throw (what : string) (b : S).
Arguments Return {S A} a b.
Arguments Exit {S A} text b.
Arguments Throw {S A} what b.

(** *** The next-state generator

    Modelled from the spec: the oracle of section 6 (STORM's
    [PrismNextStateGenerator] is not part of the repository).  It
    reports a model type, the initial states, the variable layout, and
    for each state its behaviour: a list of choices, each a list of
    successor and rate.  [expand] hands every successor to the
    [id_callback] it was given, in order, and returns the choices over
    the ids it got back. *)
Inductive ModelType := CTMC | DTMC | MDP | POMDP | MA.

Record BooleanVariable := { getName : string; bitOffset : nat }.

Record VariableInformation := {
  getTotalBitOffset : nat;
  booleanVariables : list BooleanVariable
}.

Definition StateBehavior (Id : Type) : Type := list (list (Id * ValueType)).

Record Generator := {
  getModelType : ModelType;
  initialStates : list CompressedState;
  behaviour : CompressedState -> StateBehavior CompressedState;
  getVariableInformation : VariableInformation
}.

Definition isDiscreteTimeModel (g : Generator) : bool :=
  match getModelType g with
  | DTMC | MDP | POMDP => true
  | CTMC | MA => false
  end.

Section Callbacks.
Context {S : Type}.

(** [std::function<StateType (CompressedState const&)>] bound to a
    builder: a call may change the builder. *)
Definition Callback : Type := CompressedState -> S -> StateType * S.

Fixpoint expandChoice (cb : Callback) (c : list (CompressedState * ValueType)) (b : S)
  : list (StateType * ValueType) * S :=
  match c with
  | [] => ([], b)
  | (s', r) :: c' =>
      let '(id, b1) := cb s' b in
      let '(rest, b2) := expandChoice cb c' b1 in
      ((id, r) :: rest, b2)
  end.

Fixpoint expandChoices (cb : Callback) (cs : StateBehavior CompressedState) (b : S)
  : StateBehavior StateType * S :=
  match cs with
  | [] => ([], b)
  | c :: cs' =>
      let '(c1, b1) := expandChoice cb c b in
      let '(rest, b2) := expandChoices cb cs' b1 in
      (c1 :: rest, b2)
  end.

(** [generator->getInitialStates(stateToIdCallback)]. *)
Fixpoint registerStates (cb : Callback) (l : list CompressedState) (b : S)
  : list StateType * S :=
  match l with
  | [] => ([], b)
  | s :: l' =>
      let '(id, b1) := cb s b in
      let '(rest, b2) := registerStates cb l' b1 in
      (id :: rest, b2)
  end.
End Callbacks.
Arguments Callback S : clear implicits.

(** *** The state storage

    [stateStorage.stateToId] is a [BitVectorHashMap]:
    [findOrAdd (s, v)] returns the value stored for [s], after storing
    [v] when there was none; [getNumberOfStates] is its size. *)
Definition findOrAdd (s : CompressedState) (v : StateType)
    (m : gmap CompressedState StateType) : StateType * gmap CompressedState StateType :=
  match m !! s with
  | Some id => (id, m)
  | None => (v, <[s := v]> m)
  end.

Definition getNumberOfStates (m : gmap CompressedState StateType) : nat := size m.

(** One [addNextValue (row, column, value)] call. *)
Abbreviation MatrixEntry := (N * StateType * ValueType)%type (only parsing).

(** The sparse-matrix builder handed to [buildMatrices], with the row
    counters the explorer keeps beside it. *)
Record MatrixBuilder := mkMatrixBuilder {
  entries : list MatrixEntry;
  currentRow : N;
  currentRowGroup : N
}.

(** What [build] hands to the model checker. *)
Record ModelComponents := mkModelComponents {
  transitionMatrix : list MatrixEntry;
  initialStatesLabel : list StateType;
  deadlockStatesLabel : list StateType;
  rateTransitions : bool
}.

Inductive ModelKind := Ctmc | Dtmc.

(** The pointer [build] returns. *)
Inductive BuildResult :=
| Model (kind : ModelKind) (components : ModelComponents)
| Nullptr
| NoReturnValue.

Definition newline : string := String (ascii_of_nat 10) "".
Definition tab : string := String (ascii_of_nat 9) "".
Definition quote : string := String (ascii_of_nat 34) "".

(** ** The first explorer: [src/StaminaModelBuilder.cpp] *)
Module Legacy.

(** The members the explorer reads and writes.  Its header is not
    among the sources: [piMap] maps [StateType] to [float] (the value
    inserted is [(float) 0.0]), and [tSet], [tMap], [stateMap] and
    [exploredStates] are sets of [StateType]. *)
Record State := mkState {
  stateToId : gmap CompressedState StateType;
  initialStateIndices : list StateType;
  piMap : gmap StateType float;
  tSet : gset StateType;
  tMap : gset StateType;
  stateMap : gset StateType;
  exploredStates : gset StateType;
  statesToExplore : list (CompressedState * StateType);
  currentState : StateType;
  trace : list Event
}.

Definition set_stateToId v b :=
  mkState v (initialStateIndices b) (piMap b) (tSet b) (tMap b) (stateMap b)
    (exploredStates b) (statesToExplore b) (currentState b) (trace b).
Definition set_initialStateIndices v b :=
  mkState (stateToId b) v (piMap b) (tSet b) (tMap b) (stateMap b)
    (exploredStates b) (statesToExplore b) (currentState b) (trace b).
Definition set_piMap v b :=
  mkState (stateToId b) (initialStateIndices b) v (tSet b) (tMap b) (stateMap b)
    (exploredStates b) (statesToExplore b) (currentState b) (trace b).
Definition set_tMap v b :=
  mkState (stateToId b) (initialStateIndices b) (piMap b) (tSet b) v (stateMap b)
    (exploredStates b) (statesToExplore b) (currentState b) (trace b).
Definition set_exploredStates v b :=
  mkState (stateToId b) (initialStateIndices b) (piMap b) (tSet b) (tMap b) (stateMap b)
    v (statesToExplore b) (currentState b) (trace b).
Definition set_statesToExplore v b :=
  mkState (stateToId b) (initialStateIndices b) (piMap b) (tSet b) (tMap b) (stateMap b)
    (exploredStates b) v (currentState b) (trace b).
Definition set_currentState v b :=
  mkState (stateToId b) (initialStateIndices b) (piMap b) (tSet b) (tMap b) (stateMap b)
    (exploredStates b) (statesToExplore b) v (trace b).
Definition log (e : Event) b :=
  mkState (stateToId b) (initialStateIndices b) (piMap b) (tSet b) (tMap b) (stateMap b)
    (exploredStates b) (statesToExplore b) (currentState b) (trace b ++ [e]).

(** [set_contains (set, value)]. *)
Definition set_contains (s : gset StateType) (v : StateType) : bool :=
  bool_decide (v ∈ s).

(** [if (piMap.find(k) == piMap.end()) piMap.insert({k, 0.0})]. *)
Definition piMap_insert_if_absent (k : StateType) (pm : gmap StateType float)
  : gmap StateType float :=
  match pm !! k with
  | Some _ => pm
  | None => <[k := 0%float]> pm
  end.

(** [piMap[k]] read where the key is present; a missing key reads as
    the value [operator[]] would insert. *)
Definition piAt (pm : gmap StateType float) (k : StateType) : float :=
  default 0%float (pm !! k).

Definition unexpectedBehavior (previousState : StateType) : string :=
  "Unexpected behavior! State with index " +:+ pretty previousState
  +:+ " should have already been in the probability map, but it was not! Inserting now."
  +:+ newline +:+ "This indicates that we have (somehow) reached a state that did not show up in "
  +:+ "any previous states' next state list.".

Definition shouldEnqueue (previousState : StateType) (b : State) : bool * State :=
  match piMap b !! previousState with
  | None =>
      (false,
       log (error (unexpectedBehavior previousState))
         (set_piMap (<[previousState := 0%float]> (piMap b)) b))
  | Some _ =>
      let b1 := set_piMap (piMap_insert_if_absent (currentState b) (piMap b)) b in
      if PrimFloat.eqb (piAt (piMap b1) previousState) 0%float then (true, b1)
      else
        (negb (set_contains (stateMap b1) (currentState b1)
               && set_contains (exploredStates b1) (currentState b1)), b1)
  end.

Definition getOrAddStateIndex : Callback State := fun state b =>
  let newIndex := to_StateType (getNumberOfStates (stateToId b)) in
  let '(actualIndex, m) := findOrAdd state newIndex (stateToId b) in
  let b1 := set_stateToId m b in
  if N.eqb actualIndex newIndex then
    let '(enqueue, b2) := shouldEnqueue actualIndex b1 in
    if enqueue then
      (actualIndex, set_statesToExplore (statesToExplore b2 ++ [(state, actualIndex)]) b2)
    else (actualIndex, b2)
  else (actualIndex, b1).

(** One pass of the innermost loop of [buildMatrices], for the pair
    [(sPrime, r)] of a choice of the state [currentIndex]. *)
Definition addTransition (currentIndex : StateType) (row : N)
    (acc : State * list MatrixEntry) (pair : StateType * ValueType)
  : State * list MatrixEntry :=
  let '(b, es) := acc in
  let '(sPrime, r) := pair in
  let probability := to_float r in
  let pm := piMap_insert_if_absent sPrime (piMap b) in
  let pm := <[sPrime := float_add (piAt pm sPrime)
                          (float_mul (piAt pm currentIndex) probability)]> pm in
  let b1 := set_piMap pm b in
  let b2 :=
    if negb (set_contains (stateMap b1) sPrime && set_contains (exploredStates b1) sPrime)
    then set_exploredStates ({[sPrime]} ∪ exploredStates b1) b1
    else b1 in
  (b2, es ++ [(row, sPrime, probability)]).

(** The loop over the choices: one matrix row per choice. *)
Fixpoint addChoices (currentIndex : StateType) (behavior : StateBehavior StateType)
    (b : State) (mb : MatrixBuilder) : State * MatrixBuilder :=
  match behavior with
  | [] => (b, mb)
  | choice :: rest =>
      let '(b1, es) := fold_left (addTransition currentIndex (currentRow mb)) choice (b, entries mb) in
      addChoices currentIndex rest b1
        (mkMatrixBuilder es (currentRow mb + 1) (currentRowGroup mb))
  end.

Definition behaviorWasEmpty (currentIndex : StateType) : string :=
  "Behavior for state " +:+ pretty currentIndex +:+ " was empty!".

(** The body of the exploration loop after [pop_front], for the
    popped pair [(currentState, currentIndex)].  [continue] and the end
    of the body both return to the loop; [errorExit] ends the process.
    The reward models, the choice labels, the state valuations and the
    progress report touch none of the members kept here and are left
    out. *)
Definition exploreState (g : Generator) (kappa : ValueType)
    (currentState_ : CompressedState) (currentIndex : StateType)
    (b : State) (mb : MatrixBuilder) : Outcome (State * MatrixBuilder) unit :=
  let b :=
    if N.eqb (currentIndex mod 100000) 0
    then log (info ("Exploring state with id " +:+ pretty currentIndex +:+ ".")) b
    else b in
  let b := set_piMap (piMap_insert_if_absent currentIndex (piMap b)) b in
  if set_contains (tSet b) currentIndex && PrimFloat.ltb (piAt (piMap b) currentIndex) kappa
  then Return tt (b, mb)
  else
    let b := log (OracleExpand currentState_) (log (OracleLoad currentState_) b) in
    let '(behavior, b) := expandChoices getOrAddStateIndex (behaviour g currentState_) b in
    match behavior with
    | [] => Exit (behaviorWasEmpty currentIndex) (b, mb)
    | _ :: _ =>
        let shouldEnqueueAll := PrimFloat.eqb (piAt (piMap b) currentIndex) 0%float in
        let b :=
          if negb shouldEnqueueAll && set_contains (tMap b) currentIndex
          then set_tMap (tMap b ∖ {[currentIndex]}) b
          else b in
        let '(b, mb) := addChoices currentIndex behavior b mb in
        let b := set_piMap (<[currentIndex := 0%float]> (piMap b)) b in
        Return tt (b, mkMatrixBuilder (entries mb) (currentRow mb) (currentRowGroup mb + 1))
    end.

(** [while (!statesToExplore.empty())], bounded by [fuel] passes. *)
Fixpoint explore (fuel : nat) (g : Generator) (kappa : ValueType)
    (b : State) (mb : MatrixBuilder) : option (Outcome (State * MatrixBuilder) unit) :=
  match statesToExplore b with
  | [] => Some (Return tt (b, mb))
  | (currentState_, currentIndex) :: queue =>
      match fuel with
      | O => None
      | S fuel' =>
          let b1 := set_statesToExplore queue (set_currentState currentIndex b) in
          match exploreState g kappa currentState_ currentIndex b1 mb with
          | Return _ (b', mb') => explore fuel' g kappa b' mb'
          | stop => Some stop
          end
      end
  end.

(** The start of [buildMatrices]: the initial states and the check on
    them. *)
Definition registerInitialStates (g : Generator) (b : State) : State :=
  let '(ids, b1) := registerStates getOrAddStateIndex (initialStates g) (log OracleInitialStates b) in
  let b2 := set_initialStateIndices ids b1 in
  if negb (bool_decide (initialStateIndices b2 = []))
  then log (error "Initial states are empty!") b2
  else b2.

Definition buildMatrices (fuel : nat) (g : Generator) (kappa : ValueType)
    (transitionMatrixBuilder : list MatrixEntry) (b : State)
  : option (Outcome (State * MatrixBuilder) unit) :=
  explore fuel g kappa (registerInitialStates g b)
    (mkMatrixBuilder transitionMatrixBuilder 0 0).

Definition buildModelComponents (fuel : nat) (g : Generator) (kappa : ValueType) (b : State)
  : option (Outcome State ModelComponents) :=
  match buildMatrices fuel g kappa [] b with
  | None => None
  | Some (Return _ (b', mb)) =>
      Some (Return
              (mkModelComponents (entries mb) (initialStateIndices b') []
                 (negb (isDiscreteTimeModel g)))
              b')
  | Some (Exit text (b', _)) => Some (Exit text b')
  | Some (Throw what (b', _)) => Some (Throw what b')
  end.

Definition caughtInBuild (what : string) : string :=
  "STAMINA encountered the following error (possibly in the interface with STORM)"
  +:+ " in the function StaminaModelBuilder::build():" +:+ newline +:+ tab +:+ what.

Definition build (fuel : nat) (g : Generator) (kappa : ValueType) (b : State)
  : option (Outcome State BuildResult) :=
  match getModelType g with
  | CTMC =>
      match buildModelComponents fuel g kappa b with
      | None => None
      | Some (Return components b') => Some (Return (Model Ctmc components) b')
      | Some (Exit text b') => Some (Exit text b')
      | Some (Throw what b') => Some (Return NoReturnValue (log (error (caughtInBuild what)) b'))
      end
  | _ => Some (Return Nullptr (log (error "This model type is not supported!") b))
  end.

(** [updateReachabilityProbability]: its parameters hide the member
    [currentState]; [transitionProbability] arrives as a [float].  The
    first [piMap[previousState]] is [operator[]], which gives a missing
    key the value 0. *)
Definition updateReachabilityProbability (currentState_ previousState : StateType)
    (transitionProbability : float) (b : State) : State :=
  let pm := piMap_insert_if_absent previousState (piMap b) in
  if PrimFloat.eqb (piAt pm previousState) 0%float then set_piMap pm b
  else
    let pm := piMap_insert_if_absent currentState_ pm in
    set_piMap
      (<[currentState_ := float_add (piAt pm currentState_)
                            (float_mul transitionProbability (piAt pm previousState))]> pm)
      b.

End Legacy.

(** ** The buffered builder: [src/stamina/builder/StaminaModelBuilder.cpp] *)
Module Builder.

(** [TransitionInfo]: an out-of-order transition kept for the flush. *)
Record TransitionInfo := mkTransitionInfo { to : StateType; transition : ValueType }.

(** The members the functions of the base class read and write.  An
    entry of [statesToExplore] names its [ProbabilityState] by index. *)
Record State := mkState {
  stateToId : gmap CompressedState StateType;
  deadlockStateIndices : list StateType;
  transitionsToAdd : list (list TransitionInfo);
  absorbingState : CompressedState;
  absorbingWasSetUp : bool;
  firstIteration : bool;
  fresh : bool;
  stateRemapping : list N;
  statesToExplore : list (StateType * CompressedState);
  isCtmc : bool;
  trace : list Event
}.

Definition set_stateToId v b :=
  mkState v (deadlockStateIndices b) (transitionsToAdd b) (absorbingState b)
    (absorbingWasSetUp b) (firstIteration b) (fresh b) (stateRemapping b)
    (statesToExplore b) (isCtmc b) (trace b).
Definition set_deadlockStateIndices v b :=
  mkState (stateToId b) v (transitionsToAdd b) (absorbingState b)
    (absorbingWasSetUp b) (firstIteration b) (fresh b) (stateRemapping b)
    (statesToExplore b) (isCtmc b) (trace b).
Definition set_transitionsToAdd v b :=
  mkState (stateToId b) (deadlockStateIndices b) v (absorbingState b)
    (absorbingWasSetUp b) (firstIteration b) (fresh b) (stateRemapping b)
    (statesToExplore b) (isCtmc b) (trace b).
Definition set_absorbingState v b :=
  mkState (stateToId b) (deadlockStateIndices b) (transitionsToAdd b) v
    (absorbingWasSetUp b) (firstIteration b) (fresh b) (stateRemapping b)
    (statesToExplore b) (isCtmc b) (trace b).
Definition set_absorbingWasSetUp v b :=
  mkState (stateToId b) (deadlockStateIndices b) (transitionsToAdd b) (absorbingState b)
    v (firstIteration b) (fresh b) (stateRemapping b)
    (statesToExplore b) (isCtmc b) (trace b).
Definition set_stateRemapping v b :=
  mkState (stateToId b) (deadlockStateIndices b) (transitionsToAdd b) (absorbingState b)
    (absorbingWasSetUp b) (firstIteration b) (fresh b) v
    (statesToExplore b) (isCtmc b) (trace b).
Definition set_statesToExplore v b :=
  mkState (stateToId b) (deadlockStateIndices b) (transitionsToAdd b) (absorbingState b)
    (absorbingWasSetUp b) (firstIteration b) (fresh b) (stateRemapping b)
    v (isCtmc b) (trace b).
Definition set_isCtmc v b :=
  mkState (stateToId b) (deadlockStateIndices b) (transitionsToAdd b) (absorbingState b)
    (absorbingWasSetUp b) (firstIteration b) (fresh b) (stateRemapping b)
    (statesToExplore b) v (trace b).
Definition log (e : Event) b :=
  mkState (stateToId b) (deadlockStateIndices b) (transitionsToAdd b) (absorbingState b)
    (absorbingWasSetUp b) (firstIteration b) (fresh b) (stateRemapping b)
    (statesToExplore b) (isCtmc b) (trace b ++ [e]).

(** [buildModelComponents] is pure virtual in this class: [build] is
    given the override. *)
Definition build (buildModelComponents : State -> Outcome State ModelComponents)
    (g : Generator) (b : State) : Outcome State BuildResult :=
  match getModelType g with
  | CTMC =>
      match buildModelComponents (set_isCtmc true b) with
      | Return components b' => Return (Model Ctmc components) b'
      | Exit text b' => Exit text b'
      | Throw what b' => Return Nullptr (log (error (Legacy.caughtInBuild what)) b')
      end
  | DTMC =>
      let b1 :=
        log (warning ("This model is a DTMC. If you are using this in the STAMINA program, "
                      +:+ "currently, only CTMCs are supported. You may get an error in checking."))
          (set_isCtmc false b) in
      match buildModelComponents b1 with
      | Return components b' => Return (Model Dtmc components) b'
      | Exit text b' => Exit text b'
      | Throw what b' => Return Nullptr (log (error (Legacy.caughtInBuild what)) b')
      end
  | MDP | POMDP | MA =>
      Return Nullptr (log (error "This model type is not supported!") b)
  end.

(** The [stateMap.get (actualIndex)] in it reads a record and drops
    it. *)
Definition getOrAddStateIndex : Callback State := fun state b =>
  let newIndex := to_StateType (getNumberOfStates (stateToId b)) in
  let actualIndex :=
    match stateToId b !! state with
    | Some id => id
    | None => newIndex
    end in
  let '(_, m) := findOrAdd state actualIndex (stateToId b) in
  (actualIndex, set_stateToId m b).

Definition getStateIndexOrAbsorbing : Callback State := fun state b =>
  match stateToId b !! state with
  | Some id => (id, b)
  | None => (0, b)
  end.

(** The constructor binds [terminalStateToIdCallback] to
    [getStateIndexOrAbsorbing]. *)
Definition terminalStateToIdCallback : Callback State := getStateIndexOrAbsorbing.

Definition emitRow (row : N) (buffered : list TransitionInfo) (es : list MatrixEntry)
  : list MatrixEntry :=
  match buffered with
  | [] => es ++ [(row, row, 1%float)]
  | _ :: _ => fold_left (fun es tInfo => es ++ [(row, to tInfo, transition tInfo)]) buffered es
  end.

Fixpoint flushRows (row : N) (rows : list (list TransitionInfo)) (es : list MatrixEntry)
  : list MatrixEntry :=
  match rows with
  | [] => es
  | buffered :: rest => flushRows (row + 1) rest (emitRow row buffered es)
  end.

(** The [addNextValue] calls of the flush, after those already made.
    The row counter of the source is a [StateType]; the buffer has at
    most [2^32] rows, one per [StateType]. *)
Definition flushToTransitionMatrix (b : State) (transitionMatrixBuilder : list MatrixEntry)
  : list MatrixEntry :=
  flushRows 0 (transitionsToAdd b) transitionMatrixBuilder.

Definition createTransition (from to_ : StateType) (probability : ValueType) (b : State)
  : State :=
  let tInfo := mkTransitionInfo to_ probability in
  let top := N.to_nat (N.max from to_) in
  let rows := transitionsToAdd b in
  let rows := rows ++ replicate (S top - length rows) [] in
  set_transitionsToAdd (alter (fun row => row ++ [tInfo]) (N.to_nat from) rows) b.

Definition getTotalBitOffsetRounded (vi : VariableInformation) (roundTo64Bit : bool) : nat :=
  let result := getTotalBitOffset vi in
  if roundTo64Bit && negb (Nat.eqb (result mod 64) 0)
  then ((result / 64) + 1) * 64
  else result.

Definition didNotGetAbsorbing : string :=
  "Did not get " +:+ quote +:+ "Absorbing" +:+ quote +:+ " variable!".

Definition setUpAbsorbingState (g : Generator) (b : State) : Outcome State unit :=
  if absorbingWasSetUp b then Return tt b
  else if firstIteration b then
    let b := set_stateRemapping (stateRemapping b ++ [0]) b in
    let vi := getVariableInformation g in
    let zeros : CompressedState := replicate (getTotalBitOffsetRounded vi true) false in
    match List.find (fun v => String.eqb (getName v) "Absorbing") (booleanVariables vi) with
    | Some variable =>
        let bit := (bitOffset variable + 1)%nat in
        let b := set_absorbingState (<[bit := true]> zeros) b in
        if negb (bool_decide (absorbingState b !! bit = Some true))
        then Exit "Absorbing state setup failed!" b
        else
          let b := set_deadlockStateIndices (deadlockStateIndices b ++ [0]) b in
          let '(actualIndex, m) := findOrAdd (absorbingState b) 0 (stateToId b) in
          let b := set_stateToId m b in
          if negb (N.eqb actualIndex 0)
          then Exit ("Absorbing state should be index 0! Got " +:+ pretty actualIndex) b
          else Return tt (set_absorbingWasSetUp true b)
    | None => Exit didNotGetAbsorbing (set_absorbingState zeros b)
    end
  else Return tt b.

Definition reset (b : State) : State :=
  if fresh b then b
  else set_absorbingWasSetUp false (set_statesToExplore [] b).

(** One pass of the loop over a choice: the builder, and the running
    [totalRateToAbsorbing]. *)
Definition connectPair (stateId : StateType) (acc : State * ValueType)
    (pair : StateType * ValueType) : State * ValueType :=
  let '(b, totalRateToAbsorbing) := acc in
  let '(first, second) := pair in
  if negb (N.eqb first 0)
  then (createTransition stateId first second b, totalRateToAbsorbing)
  else (b, PrimFloat.add totalRateToAbsorbing second).

Definition connectChoice (stateId : StateType) (acc : State * bool)
    (choice : list (StateType * ValueType)) : State * bool :=
  let '(b1, totalRateToAbsorbing) := fold_left (connectPair stateId) choice (fst acc, 0%float) in
  (createTransition stateId 0 totalRateToAbsorbing b1, true).

Definition connectTerminalStatesToAbsorbing (g : Generator)
    (terminalState : CompressedState) (stateId : StateType)
    (stateToIdCallback : Callback State) (b : State) : Outcome State unit :=
  let b := log (OracleExpand terminalState) (log (OracleLoad terminalState) b) in
  let '(behavior, b) := expandChoices stateToIdCallback (behaviour g terminalState) b in
  match behavior with
  | [] => Return tt (log (warning "Behavior for perimeter state was empty!") b)
  | _ :: _ =>
      let '(b, addedValue) := fold_left (connectChoice stateId) behavior (b, false) in
      if negb addedValue then Exit "Did not add to transition matrix!" b
      else Return tt b
  end.

(** The calls the base class offers to the builders derived from it. *)
Inductive Call :=
| CallSetUpAbsorbingState
| CallReset
| CallGetOrAddStateIndex (state : CompressedState)
| CallGetStateIndexOrAbsorbing (state : CompressedState)
| CallCreateTransition (from to_ : StateType) (probability : ValueType)
| CallConnectTerminalStatesToAbsorbing (terminalState : CompressedState) (stateId : StateType).

Definition call (g : Generator) (c : Call) (b : State) : Outcome State unit :=
  match c with
  | CallSetUpAbsorbingState => setUpAbsorbingState g b
  | CallReset => Return tt (reset b)
  | CallGetOrAddStateIndex state => Return tt (snd (getOrAddStateIndex state b))
  | CallGetStateIndexOrAbsorbing state => Return tt (snd (getStateIndexOrAbsorbing state b))
  | CallCreateTransition from to_ probability =>
      Return tt (createTransition from to_ probability b)
  | CallConnectTerminalStatesToAbsorbing terminalState stateId =>
      connectTerminalStatesToAbsorbing g terminalState stateId terminalStateToIdCallback b
  end.

Fixpoint run (g : Generator) (cs : list Call) (b : State) : Outcome State unit :=
  match cs with
  | [] => Return tt b
  | c :: cs' =>
      match call g c b with
      | Return _ b' => run g cs' b'
      | stop => stop
      end
  end.

(** The state whose row a call writes to, if it writes to one. *)
Definition rowWritten (c : Call) : option StateType :=
  match c with
  | CallCreateTransition from _ _ => Some from
  | CallConnectTerminalStatesToAbsorbing _ stateId => Some stateId
  | _ => None
  end.

(** A builder as its constructor leaves it ([isCtmc] is not
    initialised there). *)
Definition initial : State :=
  mkState ∅ [] [] [] false true true [] [] false [].

(** The entries of one row, in the order they were added. *)
Definition rowOf (row : N) (es : list MatrixEntry) : list MatrixEntry :=
  filter (fun e => e.1.1 = row) es.

(** The buffered transitions of a state; none when the buffer has no
    such row. *)
Definition buffered (b : State) (stateId : StateType) : list TransitionInfo :=
  default [] (transitionsToAdd b !! N.to_nat stateId).

End Builder.

(** ** The property expression of the base class

    The members [propertyExpression], [expressionManager],
    [propertyFormula] and [formulaMatchesExpression] of
    [src/stamina/builder/StaminaModelBuilder.h], and the three functions
    on them.  STORM's formulas, expressions and expression managers are
    outside the repository: they are the types of the section, with
    [toExpression], which returns an expression or throws.  A pointer is
    an [option], [None] for the null pointer; a function that would
    dereference a null pointer has no result. *)
Module PropertyMembers.
Section Members.
Context {Formula Expression ExpressionManager : Type}.
Variable toExpression : Formula -> ExpressionManager -> Expression + string.

Record State := mkState {
  propertyExpression : option Expression;
  expressionManager : option ExpressionManager;
  propertyFormula : option Formula;
  formulaMatchesExpression : bool
}.

(** The constructor: [propertyExpression (nullptr)] and
    [formulaMatchesExpression (true)]; [expressionManager] is not
    initialised, and [propertyFormula] is an empty [shared_ptr]. *)
Definition initial (expressionManager_ : option ExpressionManager) : State :=
  mkState None expressionManager_ None true.

Definition getPropertyExpression (b : State) : option Expression := propertyExpression b.

Definition setPropertyFormula (formula : option Formula) (manager : ExpressionManager)
    (b : State) : State :=
  mkState (propertyExpression b) (Some manager) formula false.

(** [pExpression] is a local [shared_ptr]: the expression is made and
    dropped at the end of the function. *)
Definition loadPropertyExpressionFromFormula (b : State) : option (Outcome State unit) :=
  if formulaMatchesExpression b then Some (Return tt b)
  else
    match propertyFormula b, expressionManager b with
    | Some formula, Some manager =>
        match toExpression formula manager with
        | inl pExpression =>
            Some (Return tt
                    (mkState (propertyExpression b) (expressionManager b) (propertyFormula b)
                       true))
        | inr what => Some (Throw what b)
        end
    | _, _ => None
    end.

Inductive Call :=
| CallSetPropertyFormula (formula : Formula) (manager : ExpressionManager)
| CallLoadPropertyExpressionFromFormula.

(** A sequence of calls, with non-null formulas; an exception ends
    it. *)
Fixpoint run (cs : list Call) (b : State) : option (Outcome State unit) :=
  match cs with
  | [] => Some (Return tt b)
  | CallSetPropertyFormula formula manager :: cs' =>
      run cs' (setPropertyFormula (Some formula) manager b)
  | CallLoadPropertyExpressionFromFormula :: cs' =>
      match loadPropertyExpressionFromFormula b with
      | Some (Return _ b') => run cs' b'
      | stop => stop
      end
  end.

(** A formula was set whenever the expression is out of date. *)
Definition formulaIsSet (b : State) : Prop :=
  formulaMatchesExpression b = false ->
  is_Some (propertyFormula b) /\ is_Some (expressionManager b).

End Members.
End PropertyMembers.

(** ** The exploring pass of the derived builders

    Modelled from the spec: the exploring pass of the builders derived
    from the base class, and their handler of the absorbing state at
    flush time.  [StaminaPriorityModelBuilder.h] declares
    [buildMatrices], [getOrAddStateIndex] and
    [connectAllTerminalStatesToAbsorbing]; the sources do not define
    them.  The pass is the expansion step of section 4.D over
    the FIFO queue of section 4.C, run as pass 0 of section 4.H, with
    the records of section 3; the handler is section 4.F with the
    perimeter re-expansion.  The index store, the set-up of the
    absorbing state, the transition buffer, the re-expansion of one
    perimeter state and the flush are the functions of the base class,
    from the source.  The ids do not change during a pass (section 3):
    [remapStates] is not part of it. *)
Module Explorer.

(** Modelled from the spec: the [ProbabilityState] record of section
    3, which the derived builders keep per state; one pass needs no
    [iterationLastSeen]. *)
Record ProbabilityState := mkProbabilityState {
  pi : float;
  terminal : bool;
  wasEnqueued : bool
}.

(** Modelled from the spec: a record is created with
    [pi = 0, terminal = true] (section 3, lifecycle). *)
Definition created : ProbabilityState := mkProbabilityState 0 true false.

(** Modelled from the spec: the members of a derived builder, which
    are the base class, the probability-state registry (section 4.B)
    and the exploration queue (section 4.C). *)
Record State := mkState {
  base : Builder.State;
  registry : gmap StateType ProbabilityState;
  queue : list (CompressedState * StateType)
}.

(** Modelled from the spec: [registry.get_or_insert (id)], section
    4.B. *)
Definition get_or_insert (id : StateType) (reg : gmap StateType ProbabilityState)
  : ProbabilityState * gmap StateType ProbabilityState :=
  match reg !! id with
  | Some R => (R, reg)
  | None => (created, <[id := created]> reg)
  end.

(** Modelled from the spec: the body of the loop of [buildMatrices]
    over the pairs of a choice.  It is step 3 of the expansion step
    (section 4.D) of the state [id_s], for the pair [(s', r)]:
    (a) [find_or_add] and [get_or_insert]; (b) the reachability
    update, with the rate as it is; (c) the enqueue policy; (d) the
    edge is recorded in the transition buffer.  A successor that is
    the absorbing id 0 has no record (section 3): its edge is
    accumulated in the buffer and it is not enqueued (section 4.D,
    edge cases). *)
Definition visit (id_s : StateType) (e : State) (pair : CompressedState * ValueType)
  : State :=
  let '(s', r) := pair in
  let was_new := bool_decide (Builder.stateToId (base e) !! s' = None) in
  let '(id', b) := Builder.getOrAddStateIndex s' (base e) in
  if N.eqb id' 0 then
    mkState (Builder.createTransition id_s id' r b) (registry e) (queue e)
  else
    let '(R', reg) := get_or_insert id' (registry e) in
    let R_s := (get_or_insert id_s reg).1 in
    let pi' := PrimFloat.add (pi R') (PrimFloat.mul (pi R_s) r) in
    let push := negb (wasEnqueued R') && (was_new || terminal R') in
    mkState (Builder.createTransition id_s id' r b)
      (<[id' := mkProbabilityState pi' (terminal R') (wasEnqueued R' || push)]> reg)
      (if push then queue e ++ [(s', id')] else queue e).

(** Modelled from the spec: the body of the exploring loop of
    [buildMatrices], which is the expansion step of section 4.D on
    the popped state [s] with id [id_s]: (1) skip; or (2) mark
    non-terminal and ask the oracle, (3) visit every pair of every
    choice, a state without behaviour being deadlocked, with a
    self-loop; (4) [pi = 0]; (5) [wasEnqueued = false]. *)
Definition expansionStep (g : Generator) (kappa : ValueType)
    (s : CompressedState) (id_s : StateType) (e : State) : State :=
  let '(R_s, reg) := get_or_insert id_s (registry e) in
  if terminal R_s && PrimFloat.ltb (pi R_s) kappa then
    mkState (base e) (<[id_s := mkProbabilityState (pi R_s) (terminal R_s) false]> reg)
      (queue e)
  else
    let reg := <[id_s := mkProbabilityState (pi R_s) false (wasEnqueued R_s)]> reg in
    let b := Builder.log (OracleExpand s) (Builder.log (OracleLoad s) (base e)) in
    let e1 :=
      match behaviour g s with
      | [] => mkState (Builder.createTransition id_s id_s 1 b) reg (queue e)
      | choice :: choices =>
          fold_left (visit id_s) (concat (choice :: choices)) (mkState b reg (queue e))
      end in
    let R_s := (get_or_insert id_s (registry e1)).1 in
    mkState (base e1) (<[id_s := mkProbabilityState 0 (terminal R_s) false]> (registry e1))
      (queue e1).

(** Modelled from the spec: the exploring loop of [buildMatrices]
    (section 4.H, pass 0).  The explorer runs until the queue is
    empty; [fuel] bounds the pops. *)
Fixpoint explore (fuel : nat) (g : Generator) (kappa : ValueType) (e : State)
  : option State :=
  match queue e with
  | [] => Some e
  | (s, id_s) :: rest =>
      match fuel with
      | O => None
      | S fuel' =>
          explore fuel' g kappa
            (expansionStep g kappa s id_s (mkState (base e) (registry e) rest))
      end
  end.

(** Modelled from the spec: the seeding of [buildMatrices].  Pass 0
    seeds an initial state: [pi = 1] (section 4.H), and it is
    queued. *)
Definition seed (e : State) (p : CompressedState * StateType) : State :=
  mkState (base e) (<[p.2 := mkProbabilityState 1 true true]> (registry e))
    (queue e ++ [p]).

(** Modelled from the spec: the start of [buildMatrices].  The
    absorbing state is set up (section 4.A), the initial states are
    registered and seeded; an empty initial set is the error
    [NoInitialStates] (B3). *)
Definition start (g : Generator) (b : Builder.State) : Outcome Builder.State State :=
  match Builder.setUpAbsorbingState g b with
  | Return _ b1 =>
      let '(ids, b2) :=
        registerStates Builder.getOrAddStateIndex (initialStates g)
          (Builder.log OracleInitialStates b1) in
      match ids with
      | [] => Exit "NoInitialStates" b2
      | _ :: _ =>
          let e := fold_left seed (zip (initialStates g) ids) (mkState b2 ∅ []) in
          Return e (base e)
      end
  | Exit text b1 => Exit text b1
  | Throw what b1 => Throw what b1
  end.

(** Modelled from the spec: the test of
    [connectAllTerminalStatesToAbsorbing] for a perimeter state at
    flush time (section 4.F): terminal, with [pi > 0]. *)
Definition isPerimeter (reg : gmap StateType ProbabilityState) (id : StateType) : bool :=
  match reg !! id with
  | Some R => terminal R && PrimFloat.ltb 0 (pi R)
  | None => false
  end.

(** Modelled from the spec: the perimeter states with their ids, as
    [connectAllTerminalStatesToAbsorbing] finds them in the index
    store. *)
Definition perimeter (e : State) : list (CompressedState * StateType) :=
  filter (fun p => isPerimeter (registry e) p.2 = true)
    (map_to_list (Builder.stateToId (base e))).

(** Modelled from the spec: [connectAllTerminalStatesToAbsorbing],
    the handler at flush time of section 4.F.  The oracle is asked
    again for every perimeter state, with the callback that maps an
    unknown successor to id 0: [connectTerminalStatesToAbsorbing] of
    the base class. *)
Definition connectAllTerminalStatesToAbsorbing (g : Generator) (e : State)
  : Outcome Builder.State unit :=
  Builder.run g
    (map (fun p => Builder.CallConnectTerminalStatesToAbsorbing p.1 p.2) (perimeter e))
    (base e).

(** Modelled from the spec: [buildMatrices] as a whole.  A build is
    pass 0, the handler, which always adds the edge [(0, 0, 1)]
    (section 4.F), and the flush of the base class into an empty
    matrix builder. *)
Definition build (fuel : nat) (g : Generator) (kappa : ValueType) (b : Builder.State)
  : option (Outcome Builder.State (list MatrixEntry)) :=
  match start g b with
  | Return e _ =>
      match explore fuel g kappa e with
      | None => None
      | Some e' =>
          match connectAllTerminalStatesToAbsorbing g e' with
          | Return _ b1 =>
              let b2 := Builder.createTransition 0 0 1 b1 in
              Some (Return (Builder.flushToTransitionMatrix b2 []) b2)
          | Exit text b1 => Some (Exit text b1)
          | Throw what b1 => Some (Throw what b1)
          end
      end
  | Exit text b1 => Some (Exit text b1)
  | Throw what b1 => Some (Throw what b1)
  end.

End Explorer.

(** ** Definitions used by the statements *)

(** The final state of a call, however it ended. *)
Definition finalState {S A : Type} (o : Outcome S A) : S :=
  match o with
  | Return _ b => b
  | Exit _ b => b
  | Throw _ b => b
  end.

(** The id the terminal-state callback answers for a successor. *)
Definition idOrAbsorbing (m : gmap CompressedState StateType) (s : CompressedState)
  : StateType :=
  match m !! s with
  | Some id => id
  | None => 0
  end.

(** The transitions of a choice to successors registered under a
    non-zero id, with their rates, in the order of the choice. *)
Definition knownEdges (m : gmap CompressedState StateType)
    (choice : list (CompressedState * ValueType)) : list Builder.TransitionInfo :=
  omap (fun p => if N.eqb (idOrAbsorbing m p.1) 0 then None
                 else Some (Builder.mkTransitionInfo (idOrAbsorbing m p.1) p.2)) choice.

(** The rates of a choice that the terminal-state callback sends to
    state 0, in the order of the choice. *)
Definition ratesToAbsorbing (m : gmap CompressedState StateType)
    (choice : list (CompressedState * ValueType)) : list ValueType :=
  omap (fun p => if N.eqb (idOrAbsorbing m p.1) 0 then Some p.2 else None) choice.

(** What one choice of a perimeter state adds to its row. *)
Definition perimeterRow (m : gmap CompressedState StateType)
    (choice : list (CompressedState * ValueType)) : list Builder.TransitionInfo :=
  knownEdges m choice
  ++ [Builder.mkTransitionInfo 0 (fold_left PrimFloat.add (ratesToAbsorbing m choice) 0%float)].

(** The matrix entries of one buffered row. *)
Definition rowEntries (row : N) (buffered : list Builder.TransitionInfo) : list MatrixEntry :=
  match buffered with
  | [] => [(row, row, 1%float)]
  | _ :: _ => map (fun tInfo => (row, Builder.to tInfo, Builder.transition tInfo)) buffered
  end.

Fixpoint allRowEntries (row : N) (rows : list (list Builder.TransitionInfo)) : list MatrixEntry :=
  match rows with
  | [] => []
  | buffered :: rest => rowEntries row buffered ++ allRowEntries (row + 1) rest
  end.

Definition column (e : MatrixEntry) : StateType := e.1.2.

(** The flush the spec describes leaves, in each row, destinations that
    ascend strictly: sorted, and no destination twice. *)
Definition sortedAndMerged (row : list MatrixEntry) : Prop :=
  StronglySorted N.lt (map column row).

(** The bit vector [setUpAbsorbingState] builds for the absorbing state,
    when the layout has an [Absorbing] variable whose bit it can set. *)
Definition absorbingFor (g : Generator) : option (list bool) :=
  let vi := getVariableInformation g in
  match List.find (fun v => String.eqb (getName v) "Absorbing") (booleanVariables vi) with
  | Some variable =>
      let bit := (bitOffset variable + 1)%nat in
      let state := <[bit := true]> (replicate (Builder.getTotalBitOffsetRounded vi true) false) in
      if bool_decide (state !! bit = Some true) then Some state else None
  | None => None
  end.


(** What the absorbing state keeps through the calls of [Builder.Call]:
    it is the bit vector the set-up builds, it is registered under id 0,
    it alone is, and no transition is buffered for row 0. *)
Definition absorbingInvariant (g : Generator) (b : Builder.State) : Prop :=
  absorbingFor g = Some (Builder.absorbingState b)
  /\ Builder.stateToId b !! Builder.absorbingState b = Some 0
  /\ (forall s, Builder.stateToId b !! s = Some 0 -> s = Builder.absorbingState b)
  /\ Builder.buffered b 0 = [].

(** The members a call of [Legacy.getOrAddStateIndex] leaves as they
    are, with the oracle calls made so far: the callback changes the
    storage, [piMap] and the queue, and prints messages. *)
Definition callbackFrame (b : Legacy.State) :=
  (Legacy.initialStateIndices b, Legacy.tSet b, Legacy.tMap b, Legacy.stateMap b,
   Legacy.exploredStates b, Legacy.currentState b, oracleCalls (Legacy.trace b)).

(** The members the loops over the choices leave as they are: they
    change [piMap] and [exploredStates]. *)
Definition expansionFrame (b : Legacy.State) :=
  (Legacy.stateToId b, Legacy.initialStateIndices b, Legacy.tSet b, Legacy.tMap b,
   Legacy.stateMap b, Legacy.statesToExplore b, Legacy.currentState b, Legacy.trace b).

(** The matrix entries the first explorer writes for the choices of a
    state, one row per choice, starting at [row]. *)
Fixpoint behaviorEntries (row : N) (behavior : StateBehavior N) : list (N * N * float) :=
  match behavior with
  | [] => []
  | choice :: rest =>
      map (fun p => (row, p.1, to_float p.2)) choice ++ behaviorEntries (row + 1) rest
  end.

(** The enqueue policy of the spec, section 4.D, step 3c. *)
Definition specEnqueuePolicy (wasEnqueued was_new terminal : bool) : bool :=
  negb wasEnqueued && (was_new || terminal).

(** A first explorer as its constructor leaves it: nothing registered,
    no estimate, nothing queued.  The other members do not matter. *)
Definition legacyFresh (b : Legacy.State) : Prop :=
  Legacy.stateToId b = ∅ /\ Legacy.piMap b = ∅ /\ Legacy.statesToExplore b = [].

(** What a call of [Legacy.getOrAddStateIndex] may do to a builder: the
    members of [callbackFrame] stay, the storage keeps its entries, the
    estimates keep their values (keys are added with 0), and the queue
    keeps its entries as a prefix. *)
Definition callbackStep (b b' : Legacy.State) : Prop :=
  callbackFrame b' = callbackFrame b
  /\ Legacy.stateToId b ⊆ Legacy.stateToId b'
  /\ (forall k, Legacy.piAt (Legacy.piMap b') k = Legacy.piAt (Legacy.piMap b) k)
  /\ Legacy.statesToExplore b `prefix_of` Legacy.statesToExplore b'.

(** The ids of a storage are dense: every id is below the number of
    states, and no two states share one. *)
Definition denseIds (m : gmap (list bool) N) : Prop :=
  (forall s id, m !! s = Some id -> id < N.of_nat (size m))
  /\ (forall s1 s2 id, m !! s1 = Some id -> m !! s2 = Some id -> s1 = s2).

(** The first explorer between two registrations on a fresh builder:
    nothing is queued, and the storage and the keys of [piMap] stay
    below the number of states. *)
Definition nothingQueued (b : Legacy.State) : Prop :=
  Legacy.statesToExplore b = []
  /\ (forall s id, Legacy.stateToId b !! s = Some id -> id < N.of_nat (size (Legacy.stateToId b)))
  /\ (forall k, is_Some (Legacy.piMap b !! k) -> k < N.of_nat (size (Legacy.stateToId b))).

(** What the exploration loop may do to a builder: the initial state
    indices, [tSet] and [stateMap] stay; the storage keeps its entries;
    [tMap] only loses members and [exploredStates] only gains members. *)
Definition explorationStep (b b' : Legacy.State) : Prop :=
  Legacy.initialStateIndices b' = Legacy.initialStateIndices b
  /\ Legacy.tSet b' = Legacy.tSet b
  /\ Legacy.stateMap b' = Legacy.stateMap b
  /\ Legacy.stateToId b ⊆ Legacy.stateToId b'
  /\ Legacy.tMap b' ⊆ Legacy.tMap b
  /\ Legacy.exploredStates b ⊆ Legacy.exploredStates b'.

(** The columns of the rows written for the choices of a state. *)
Definition successorIds (behavior : StateBehavior N) : gset N :=
  list_to_set (concat behavior).*1.

(** The pair [q] the callback answered for the pair [p] of the
    generator: the index is the one [p]'s successor is registered
    under, and the rate is [p]'s. *)
Definition resolved (m : gmap (list bool) N) (p : list bool * float) (q : N * float) : Prop :=
  m !! p.1 = Some q.1 /\ q.2 = p.2.

(** The successors of the states of [U] are in [U]. *)
Definition closedUnder (g : Generator) (U : gset (list bool)) : Prop :=
  set_Forall (fun s => Forall (Forall (fun p : list bool * float => p.1 ∈ U)) (behaviour g s)) U.

(** The registered and the queued states are in [U], and every index
    is below the number of registered states. *)
Definition registeredWithin (U : gset (list bool)) (b : Legacy.State) : Prop :=
  dom (Legacy.stateToId b) ⊆ U
  /\ (forall s id, Legacy.stateToId b !! s = Some id
                   -> id < N.of_nat (size (Legacy.stateToId b)))
  /\ Forall (fun e : list bool * N => e.1 ∈ U) (Legacy.statesToExplore b).

(** A bound on the passes of the exploration loop still to come: the
    queued states, and the states of [U] not yet registered. *)
Definition passesLeft (U : gset (list bool)) (b : Legacy.State) : nat :=
  length (Legacy.statesToExplore b) + (size U - size (Legacy.stateToId b)).

(** The row of an [addNextValue] call. *)
Definition rowIndex (e : N * N * float) : N := e.1.1.

(** The entries of a matrix builder are in ascending row order, and
    below its row counter. *)
Definition rowsInOrder (mb : MatrixBuilder) : Prop :=
  StronglySorted N.le (map rowIndex (entries mb))
  /\ Forall (fun e => rowIndex e < currentRow mb) (entries mb).

(** From [(b, mb)] to [(b', mb')], as many row groups were written as
    states were expanded. *)
Definition counted (b : Legacy.State) (mb : MatrixBuilder)
    (b' : Legacy.State) (mb' : MatrixBuilder) : Prop :=
  N.of_nat (length (oracleCalls (Legacy.trace b'))) + currentRowGroup mb
  = N.of_nat (length (oracleCalls (Legacy.trace b))) + currentRowGroup mb'.

Definition isReset (c : Builder.Call) : bool :=
  match c with
  | Builder.CallReset => true
  | _ => false
  end.

(** *** A small model

    Three states and a layout with an [Absorbing] variable: [stateA]
    moves to [stateB] with rate 0.1 and to [stateC] with rate 0.9, and
    both come back with rate 1. *)
Definition stateA : list bool := [false; false; false; true].
Definition stateB : list bool := [false; false; true; false].
Definition stateC : list bool := [false; false; true; true].

Definition exampleLayout : VariableInformation :=
  {| getTotalBitOffset := 4;
     booleanVariables := [ {| getName := "Absorbing"; bitOffset := 0 |} ] |}.

Definition exampleBehaviour (s : list bool) : StateBehavior (list bool) :=
  if bool_decide (s = stateA) then [[(stateB, 0.1%float); (stateC, 0.9%float)]]
  else if bool_decide (s = stateB) then [[(stateA, 1%float)]]
  else if bool_decide (s = stateC) then [[(stateA, 1%float)]]
  else [].

Definition exampleGenerator (modelType : ModelType) (init : list (list bool)) : Generator :=
  {| getModelType := modelType;
     initialStates := init;
     behaviour := exampleBehaviour;
     getVariableInformation := exampleLayout |}.

(** The first explorer about to expand [stateA], registered under id 0
    with estimate 1. *)
Definition exploringA : Legacy.State :=
  Legacy.mkState {[stateA := 0]} [0] {[0 := 1%float]} ∅ ∅ ∅ ∅ [] 0 [].

(** [stateA] and [stateB] are registered, and [stateB], under id 1, is
    in the terminal set and not in the queue, while [stateA] is
    expanded. *)
Definition terminalB : Legacy.State :=
  Legacy.mkState {[stateA := 0; stateB := 1]} [0] {[0 := 1%float; 1 := 0.25%float]}
    {[1]} {[1]} ∅ ∅ [] 0 [].

(** A state without behaviour, at the head of the queue. *)
Definition stateD : list bool := [false; true; false; false].

Definition queuedD : Legacy.State :=
  Legacy.mkState {[stateD := 0]} [0] {[0 := 1%float]} ∅ ∅ ∅ ∅ [(stateD, 0)] 0 [].

(** As [terminalB], with [stateB] at the head of the queue. *)
Definition queuedB : Legacy.State :=
  Legacy.mkState {[stateA := 0; stateB := 1]} [0] {[0 := 1%float; 1 := 0.25%float]}
    {[1]} {[1]} ∅ ∅ [(stateB, 1)] 0 [].

Definition exampleUniverse : gset (list bool) := {[stateA; stateB; stateC]}.

(** [stateA] is registered and queued, and [piMap] already has keys
    for the next two indices. *)
Definition queuedA : Legacy.State :=
  Legacy.mkState {[stateA := 0]} [0] {[0 := 1%float; 1 := 0%float; 2 := 0%float]}
    ∅ ∅ ∅ ∅ [(stateA, 0)] 0 [].


(** *** The estimates through an expansion by the first explorer *)

(** The estimates after the pair [(sPrime, r)] of a choice of the state
    [currentIndex] was processed: the estimate of [sPrime] has grown by
    the single-precision product of the estimate of [currentIndex] and
    [r] narrowed to single precision. *)
Definition propagateOne (currentIndex : N) (pm : gmap N float) (pair : N * float)
  : gmap N float :=
  <[pair.1 := float_add (Legacy.piAt pm pair.1)
                (float_mul (Legacy.piAt pm currentIndex) (to_float pair.2))]> pm.

(** The estimates after all pairs of all choices, in order. *)
Definition propagate (currentIndex : N) (behavior : StateBehavior N) (pm : gmap N float)
  : gmap N float :=
  fold_left (propagateOne currentIndex) (concat behavior) pm.

(** *** The exploring pass *)



(** ** Tactics *)

(** Splits a conjunction, and nothing else. *)
Ltac split_conj := lazymatch goal with |- _ /\ _ => split end.

(** ** Traces *)

Lemma oracleCalls_app tr1 tr2 : oracleCalls (tr1 ++ tr2) = oracleCalls tr1 ++ oracleCalls tr2.
Proof.
  induction tr1 as [|e tr1 IH]; [done|].
  destruct e; cbn; rewrite IH; done.
Qed.

Lemma oracleCalls_app_message tr sev text :
  oracleCalls (tr ++ [Message sev text]) = oracleCalls tr.
Proof. rewrite oracleCalls_app. cbn. by rewrite app_nil_r. Qed.

(** ** Properties of the buffered builder *)
Module BuilderTheory.
Import Builder.

(** *** The transition buffer *)

Lemma buffered_padding (rows : list (list TransitionInfo)) (k i : nat) :
  default [] ((rows ++ replicate k []) !! i) = default [] (rows !! i).
Proof.
  destruct (decide (i < length rows)%nat) as [Hlt | Hge].
  - by rewrite lookup_app_l.
  - rewrite lookup_app_r by lia.
    rewrite (lookup_ge_None_2 rows i) by lia.
    destruct (replicate k [] !! (i - length rows)%nat) as [x|] eqn:E; [|done].
    apply lookup_replicate in E as [-> _]. done.
Qed.

Lemma createTransition_buffered from to_ p b r :
  buffered (createTransition from to_ p b) r =
  if decide (r = from) then buffered b from ++ [mkTransitionInfo to_ p]
  else buffered b r.
Proof.
  unfold buffered, createTransition; cbn.
  set (k := (S (N.to_nat (N.max from to_)) - length (transitionsToAdd b))%nat).
  case_decide as Hr.
  - subst r. rewrite list_lookup_alter_eq.
    assert (Hin : (N.to_nat from < length (transitionsToAdd b ++ replicate k []))%nat).
    { rewrite length_app, length_replicate. subst k. lia. }
    destruct (lookup_lt_is_Some_2 _ _ Hin) as [x Hx].
    rewrite Hx; cbn. f_equal.
    transitivity (default [] (Some x)); [done|].
    rewrite <- Hx. apply buffered_padding.
  - rewrite list_lookup_alter_ne by (intros E; apply Hr; lia).
    apply buffered_padding.
Qed.

(** *** The terminal-state callback *)

Lemma getStateIndexOrAbsorbing_eq state b :
  getStateIndexOrAbsorbing state b = (idOrAbsorbing (stateToId b) state, b).
Proof. unfold getStateIndexOrAbsorbing, idOrAbsorbing. by destruct (stateToId b !! state). Qed.

Lemma expandChoice_terminal c b :
  expandChoice terminalStateToIdCallback c b =
  (map (fun p => (idOrAbsorbing (stateToId b) p.1, p.2)) c, b).
Proof.
  induction c as [|[s' r] c IH]; [done|].
  cbn. unfold terminalStateToIdCallback at 1.
  rewrite getStateIndexOrAbsorbing_eq, IH. done.
Qed.

Lemma expandChoices_terminal cs b :
  expandChoices terminalStateToIdCallback cs b =
  (map (map (fun p => (idOrAbsorbing (stateToId b) p.1, p.2))) cs, b).
Proof.
  induction cs as [|c cs IH]; [done|].
  cbn. rewrite expandChoice_terminal, IH. done.
Qed.

Lemma registerStates_terminal l b :
  registerStates getStateIndexOrAbsorbing l b = (map (idOrAbsorbing (stateToId b)) l, b).
Proof.
  induction l as [|s l IH]; [done|].
  cbn. rewrite getStateIndexOrAbsorbing_eq, IH. done.
Qed.

(** C10.  For every compressed state, [getStateIndexOrAbsorbing]
    answers the id the state is registered under, and 0 when it is
    not registered; the builder it returns is the builder it was
    given, so the state storage keeps its entries and its size, also
    over any sequence of calls made by the generator. *)
Theorem getStateIndexOrAbsorbing_reads_only (state : CompressedState) (b : State) :
  (forall id, stateToId b !! state = Some id -> (getStateIndexOrAbsorbing state b).1 = id)
  /\ (stateToId b !! state = None -> (getStateIndexOrAbsorbing state b).1 = 0)
  /\ (getStateIndexOrAbsorbing state b).2 = b
  /\ getNumberOfStates (stateToId (getStateIndexOrAbsorbing state b).2)
     = getNumberOfStates (stateToId b)
  /\ (forall l, (registerStates getStateIndexOrAbsorbing l b).2 = b)
  /\ (forall cs, (expandChoices terminalStateToIdCallback cs b).2 = b).
Proof.
  rewrite getStateIndexOrAbsorbing_eq; cbn. unfold idOrAbsorbing.
  repeat split.
  - by intros id ->.
  - by intros ->.
  - intros l. by rewrite registerStates_terminal.
  - intros cs. by rewrite expandChoices_terminal.
Qed.

(** *** Perimeter re-expansion *)

Lemma buffered_set rows b r :
  buffered (set_transitionsToAdd rows b) r = default [] (rows !! N.to_nat r).
Proof. done. Qed.

(** The loop over the pairs of one choice. *)
Lemma fold_connectPair stateId m choice : forall b total,
  exists rows,
    fold_left (connectPair stateId)
      (map (fun p => (idOrAbsorbing m p.1, p.2)) choice) (b, total)
    = (set_transitionsToAdd rows b, fold_left PrimFloat.add (ratesToAbsorbing m choice) total)
    /\ default [] (rows !! N.to_nat stateId) = buffered b stateId ++ knownEdges m choice
    /\ (forall r, r <> stateId -> default [] (rows !! N.to_nat r) = buffered b r).
Proof.
  induction choice as [|[s' rate] choice IH]; intros b total.
  - exists (transitionsToAdd b). cbn. rewrite app_nil_r. by destruct b.
  - cbn [map fold_left connectPair fst snd].
    unfold knownEdges, ratesToAbsorbing; cbn [omap list_omap fst snd].
    fold (knownEdges m choice). fold (ratesToAbsorbing m choice).
    destruct (N.eqb (idOrAbsorbing m s') 0) eqn:E; cbn [negb].
    + destruct (IH b (PrimFloat.add total rate)) as (rows & Hfold & Hrow & Hother).
      exists rows. cbn. done.
    + destruct (IH (createTransition stateId (idOrAbsorbing m s') rate b) total)
        as (rows & Hfold & Hrow & Hother).
      exists rows. rewrite Hfold. split; [done|]. split.
      * rewrite Hrow, createTransition_buffered. rewrite decide_True by done.
        cbn. by rewrite <- app_assoc.
      * intros r Hr. rewrite (Hother r Hr), createTransition_buffered.
        by rewrite decide_False.
Qed.

(** The loop over the choices. *)
Lemma fold_connectChoice stateId m choices : forall b addedValue,
  exists rows,
    fold_left (connectChoice stateId)
      (map (map (fun p => (idOrAbsorbing m p.1, p.2))) choices) (b, addedValue)
    = (set_transitionsToAdd rows b, match choices with [] => addedValue | _ => true end)
    /\ default [] (rows !! N.to_nat stateId)
       = buffered b stateId ++ concat (map (perimeterRow m) choices)
    /\ (forall r, r <> stateId -> default [] (rows !! N.to_nat r) = buffered b r).
Proof.
  induction choices as [|choice choices IH]; intros b addedValue.
  - exists (transitionsToAdd b). cbn. rewrite app_nil_r. by destruct b.
  - cbn [map fold_left]. unfold connectChoice at 2. cbn [fst].
    destruct (fold_connectPair stateId m choice b 0%float) as (rows1 & -> & Hrow1 & Hother1).
    set (b1 := createTransition stateId 0 _ (set_transitionsToAdd rows1 b)).
    destruct (IH b1 true) as (rows & Hfold & Hrow & Hother).
    exists rows. rewrite Hfold. split.
    { by destruct choices. }
    split.
    + rewrite Hrow. subst b1. rewrite createTransition_buffered, decide_True by done.
      rewrite buffered_set, Hrow1. cbn [map concat]. unfold perimeterRow at 2.
      by rewrite <- !app_assoc.
    + intros r Hr. rewrite (Hother r Hr). subst b1.
      rewrite createTransition_buffered, decide_False by done.
      rewrite buffered_set. by apply Hother1.
Qed.

Lemma connectTerminalStatesToAbsorbing_spec g terminalState stateId b :
  exists b',
    connectTerminalStatesToAbsorbing g terminalState stateId terminalStateToIdCallback b
    = Return tt b'
    /\ oracleCalls (trace b') = oracleCalls (trace b) ++ [terminalState]
    /\ stateToId b' = stateToId b
    /\ absorbingState b' = absorbingState b
    /\ buffered b' stateId
       = buffered b stateId
         ++ concat (map (perimeterRow (stateToId b)) (behaviour g terminalState))
    /\ (forall r, r <> stateId -> buffered b' r = buffered b r).
Proof.
  unfold connectTerminalStatesToAbsorbing.
  rewrite expandChoices_terminal. cbn [stateToId log].
  set (b0 := log (OracleExpand terminalState) (log (OracleLoad terminalState) b)).
  destruct (behaviour g terminalState) as [|choice choices] eqn:Hbeh.
  - eexists; split; [reflexivity|]. cbn.
    rewrite !oracleCalls_app. cbn. rewrite !app_nil_r.
    repeat split; try done.
  - cbn [map].
    change (map (fun p => (idOrAbsorbing (stateToId b) p.1, p.2)) choice
            :: map (map (fun p => (idOrAbsorbing (stateToId b) p.1, p.2))) choices)
      with (map (map (fun p => (idOrAbsorbing (stateToId b) p.1, p.2))) (choice :: choices)).
    destruct (fold_connectChoice stateId (stateToId b) (choice :: choices) b0 false)
      as (rows & -> & Hrow & Hother).
    cbn [negb]. eexists; split; [reflexivity|].
    cbn [trace stateToId absorbingState set_transitionsToAdd b0 log].
    rewrite !oracleCalls_app. cbn [oracleCalls]. rewrite !app_nil_r.
    repeat split; try done.
Qed.

(** When no successor of a choice is registered under id 0 (the
    absorbing state is not its own successor), the known edges are the
    edges to the registered successors and the rates summed for state 0
    are those of the successors that are not registered. *)
Lemma perimeterRow_registered (m : gmap (list bool) N) (choice : list (list bool * float)) :
  (forall p, p ∈ choice -> m !! p.1 <> Some 0) ->
  knownEdges m choice
  = omap (fun p => match m !! p.1 with
                   | Some id => Some (mkTransitionInfo id p.2)
                   | None => None
                   end) choice
  /\ ratesToAbsorbing m choice
     = omap (fun p => match m !! p.1 with
                      | Some _ => None
                      | None => Some p.2
                      end) choice.
Proof.
  induction choice as [|p choice IH]; intros Hreg; [done|].
  destruct IH as [IHk IHr].
  { intros q Hq. apply Hreg. by right. }
  pose proof (Hreg p (list_elem_of_here _ _)) as Hp.
  unfold knownEdges, ratesToAbsorbing in *. cbn [omap list_omap].
  rewrite IHk, IHr. unfold idOrAbsorbing.
  destruct (m !! p.1) as [id|] eqn:E; [|done].
  destruct (N.eqb id 0) eqn:Hid; [|done].
  apply N.eqb_eq in Hid. congruence.
Qed.

(** C4.  Re-expanding a perimeter state [terminalState] of id
    [stateId] with the terminal-state callback: the callback answers
    the registered id of a successor and 0 for a successor that is not
    registered, without registering it; the generator is asked once,
    for [terminalState]; and for each choice, in order, the row of
    [stateId] gains one transition per successor registered under a
    non-zero id, with the rate the generator gave, followed by a
    single transition to state 0 whose rate is the sum of the rates of
    all successors the callback sent to 0, which are the successors
    that are not registered unless the absorbing state is itself a
    successor.  No other row changes. *)
Theorem connectTerminalStatesToAbsorbing_perimeter (g : Generator)
    (terminalState : CompressedState) (stateId : StateType) (b : State) :
  (forall s', terminalStateToIdCallback s' b = (idOrAbsorbing (stateToId b) s', b))
  /\ exists b',
      connectTerminalStatesToAbsorbing g terminalState stateId terminalStateToIdCallback b
      = Return tt b'
      /\ oracleCalls (trace b') = oracleCalls (trace b) ++ [terminalState]
      /\ stateToId b' = stateToId b
      /\ buffered b' stateId
         = buffered b stateId
           ++ concat (map (perimeterRow (stateToId b)) (behaviour g terminalState))
      /\ (forall r, r <> stateId -> buffered b' r = buffered b r)
      /\ (forall choice,
            choice ∈ behaviour g terminalState ->
            (forall p, p ∈ choice -> stateToId b !! p.1 <> Some 0) ->
            perimeterRow (stateToId b) choice
            = omap (fun p => match stateToId b !! p.1 with
                             | Some id => Some (mkTransitionInfo id p.2)
                             | None => None
                             end) choice
              ++ [mkTransitionInfo 0
                    (fold_left PrimFloat.add
                       (omap (fun p => match stateToId b !! p.1 with
                                       | Some _ => None
                                       | None => Some p.2
                                       end) choice) 0%float)]).
Proof.
  split; [intros s'; apply getStateIndexOrAbsorbing_eq|].
  destruct (connectTerminalStatesToAbsorbing_spec g terminalState stateId b)
    as (b' & Hcall & Hcalls & Hids & _ & Hrow & Hother).
  exists b'. repeat (split_conj; [done|]).
  intros choice _ Hreg. unfold perimeterRow.
  destruct (perimeterRow_registered (stateToId b) choice Hreg) as [-> ->]. done.
Qed.

(** The perimeter state [stateA] of the small model, with [stateC]
    registered and [stateB] not yet: the edge to [stateC] keeps its
    rate and the rate to [stateB] goes to state 0. *)
Example perimeter_of_stateA :
  let g := exampleGenerator CTMC [stateA] in
  let b := finalState (run g [CallSetUpAbsorbingState; CallGetOrAddStateIndex stateA;
                              CallGetOrAddStateIndex stateC] initial) in
  buffered (finalState (connectTerminalStatesToAbsorbing g stateA 1
                          terminalStateToIdCallback b)) 1
  = [mkTransitionInfo 2 0.9%float; mkTransitionInfo 0 0.1%float].
Proof. vm_compute. reflexivity. Qed.

(** *** The flush *)

Lemma emitRow_eq row row_ es : emitRow row row_ es = es ++ rowEntries row row_.
Proof.
  destruct row_ as [|tInfo rest]; [done|].
  unfold emitRow, rowEntries.
  generalize (tInfo :: rest). clear. intros l. revert es.
  induction l as [|x l IH]; intros es; cbn.
  - by rewrite app_nil_r.
  - rewrite IH. by rewrite <- app_assoc.
Qed.

Lemma flushRows_eq rows : forall row es,
  flushRows row rows es = es ++ allRowEntries row rows.
Proof.
  induction rows as [|row_ rows IH]; intros row es; cbn.
  - by rewrite app_nil_r.
  - rewrite IH, emitRow_eq. by rewrite <- app_assoc.
Qed.

Lemma rowOf_app r es1 es2 : rowOf r (es1 ++ es2) = rowOf r es1 ++ rowOf r es2.
Proof. apply filter_app. Qed.

Lemma rowOf_rowEntries r row row_ :
  rowOf r (rowEntries row row_) = if decide (row = r) then rowEntries row row_ else [].
Proof.
  unfold rowOf.
  assert (Hmap : forall l : list TransitionInfo,
    filter (fun e : MatrixEntry => e.1.1 = r) (map (fun tInfo => (row, to tInfo, transition tInfo)) l)
    = if decide (row = r) then map (fun tInfo => (row, to tInfo, transition tInfo)) l else []).
  { induction l as [|x l IH]; [by case_decide|].
    cbn [map]. rewrite filter_cons, IH. cbn. by repeat case_decide. }
  destruct row_ as [|tInfo rest].
  - done.
  - apply Hmap.
Qed.

Lemma rowOf_allRowEntries r rows : forall start,
  rowOf r (allRowEntries start rows) =
  if decide (start <= r)
  then match rows !! N.to_nat (r - start) with
       | Some row_ => rowEntries r row_
       | None => []
       end
  else [].
Proof.
  induction rows as [|row_ rows IH]; intros start; cbn [allRowEntries].
  - by case_decide.
  - rewrite rowOf_app, rowOf_rowEntries, IH.
    destruct (decide (start = r)) as [->|Hne].
    + rewrite N.sub_diag. cbn.
      destruct (decide (r + 1 <= r)); [lia|].
      destruct (decide (r <= r)); [|lia].
      by rewrite app_nil_r.
    + cbn. destruct (decide (start <= r)) as [Hle|Hgt].
      * destruct (decide (start + 1 <= r)); [|lia].
        replace (N.to_nat (r - start)) with (S (N.to_nat (r - (start + 1)))) by lia.
        done.
      * destruct (decide (start + 1 <= r)); [lia|]. done.
Qed.

(** C7, as the code has it.  The flush emits, after the entries the
    matrix builder already holds, the rows of the buffer in order, and
    within a row one entry per buffered transition, in the order the
    transitions were buffered, each with its own destination and rate
    (no sorting, no merging); a row with no buffered transition is
    emitted as the self-loop of rate 1. *)
Theorem flushToTransitionMatrix_in_buffer_order (b : State) (es : list MatrixEntry) :
  flushToTransitionMatrix b es = es ++ allRowEntries 0 (transitionsToAdd b)
  /\ (forall (row : N) (row_ : list TransitionInfo),
        transitionsToAdd b !! N.to_nat row = Some row_ ->
        rowOf row (flushToTransitionMatrix b []) =
        match row_ with
        | [] => [(row, row, 1%float)]
        | _ :: _ => map (fun tInfo => (row, to tInfo, transition tInfo)) row_
        end).
Proof.
  unfold flushToTransitionMatrix. split; [apply flushRows_eq|].
  intros row row_ Hrow. rewrite flushRows_eq. cbn [app].
  rewrite rowOf_allRowEntries. rewrite decide_True by lia.
  rewrite N.sub_0_r, Hrow. done.
Qed.

(** C7, as the claim has it, fails: three transitions buffered for
    state 1, to 2, to 1 and to 1 again, leave the flush in that order,
    so the destinations of row 1 neither ascend nor are merged. *)
Lemma flush_neither_sorts_nor_merges :
  let b := createTransition 1 1 3%float
             (createTransition 1 1 2%float (createTransition 1 2 1%float initial)) in
  flushToTransitionMatrix b []
  = [(0, 0, 1%float); (1, 2, 1%float); (1, 1, 2%float); (1, 1, 3%float); (2, 2, 1%float)]
  /\ ~ sortedAndMerged (rowOf 1 (flushToTransitionMatrix b [])).
Proof.
  split; [reflexivity|].
  intros Hs. unfold sortedAndMerged in Hs.
  change (StronglySorted N.lt [2; 1; 1]) in Hs.
  apply StronglySorted_inv in Hs as [_ Hall].
  apply Forall_inv in Hall. lia.
Qed.

(** *** The absorbing state *)

Lemma setUpAbsorbingState_return g b b' :
  setUpAbsorbingState g b = Return tt b' ->
  (b' = b /\ (absorbingWasSetUp b = true \/ firstIteration b = false))
  \/ (absorbingWasSetUp b = false /\ firstIteration b = true
      /\ absorbingFor g = Some (absorbingState b')
      /\ findOrAdd (absorbingState b') 0 (stateToId b) = (0, stateToId b')
      /\ transitionsToAdd b' = transitionsToAdd b).
Proof.
  unfold setUpAbsorbingState, absorbingFor.
  destruct (absorbingWasSetUp b) eqn:Hset; [intros [= <-]; left; by split; [|left]|].
  destruct (firstIteration b) eqn:Hfirst; [|intros [= <-]; left; by split; [|right]].
  destruct (List.find _ _) as [variable|]; [|discriminate].
  cbn [absorbingState set_absorbingState set_stateRemapping].
  destruct (bool_decide _) eqn:Hbit; cbn [negb]; [|discriminate].
  cbn [stateToId absorbingState set_deadlockStateIndices set_absorbingState set_stateRemapping].
  destruct (findOrAdd _ 0 (stateToId b)) as [actualIndex m] eqn:Hfind.
  destruct (N.eqb actualIndex 0) eqn:Hzero; cbn [negb]; [|discriminate].
  apply N.eqb_eq in Hzero as ->.
  intros [= <-]. right. cbn. by rewrite Hfind.
Qed.



Lemma to_StateType_small n :
  N.of_nat n < StateType_modulus -> to_StateType n = N.of_nat n.
Proof. intros Hn. unfold to_StateType. by apply N.mod_small. Qed.

Lemma call_preserves g c b b' :
  absorbingInvariant g b -> rowWritten c <> Some 0 ->
  call g c b = Return tt b' ->
  N.of_nat (getNumberOfStates (stateToId b')) < StateType_modulus ->
  absorbingInvariant g b'
  /\ (getNumberOfStates (stateToId b) <= getNumberOfStates (stateToId b'))%nat.
Proof.
  intros (Hfor & Hzero & Honly & Hrow0) Hrow Hcall Hsize.
  destruct c as [| |state|state|from to_ p|terminalState stateId]; cbn in Hcall.
  - apply setUpAbsorbingState_return in Hcall
      as [[-> _] | (_ & _ & Hfor' & Hfind & Hrows)]; [done|].
    assert (Ha : absorbingState b' = absorbingState b) by congruence.
    rewrite Ha in Hfind. unfold findOrAdd in Hfind. rewrite Hzero in Hfind.
    injection Hfind as Hm.
    split; [|by rewrite <- Hm].
    unfold absorbingInvariant. rewrite Ha, <- Hm. repeat split; try done.
    unfold buffered in *. by rewrite Hrows.
  - injection Hcall as <-. unfold reset. destruct (fresh b); (split; [|done]); [done|].
    unfold absorbingInvariant, buffered in *. cbn. done.
  - injection Hcall as <-. unfold getOrAddStateIndex in *.
    destruct (stateToId b !! state) as [id|] eqn:Hlook.
    + unfold findOrAdd in *. rewrite Hlook in *. cbn in *. by destruct b.
    + unfold findOrAdd in *. rewrite Hlook in *. cbn in *.
      unfold getNumberOfStates in *.
      rewrite map_size_insert_None in Hsize by done.
      rewrite map_size_insert_None by done.
      split; [|lia].
      assert (Hnew : to_StateType (size (stateToId b)) = N.of_nat (size (stateToId b))).
      { apply to_StateType_small. lia. }
      assert (Hpos : size (stateToId b) <> 0%nat).
      { intros Hempty. apply map_size_empty_inv in Hempty.
        rewrite Hempty, lookup_empty in Hzero. discriminate. }
      unfold absorbingInvariant, buffered; cbn.
      split; [done|]. split.
      * rewrite lookup_insert_ne; [done|]. congruence.
      * split; [|done]. intros s Hs.
        destruct (decide (state = s)) as [->|Hne].
        -- rewrite lookup_insert_eq in Hs. injection Hs as Hs. lia.
        -- rewrite lookup_insert_ne in Hs by done. by apply Honly.
  - injection Hcall as <-. rewrite getStateIndexOrAbsorbing_eq. done.
  - injection Hcall as <-. split; [|done].
    unfold absorbingInvariant.
    rewrite createTransition_buffered, decide_False; [done|].
    cbn in Hrow. congruence.
  - destruct (connectTerminalStatesToAbsorbing_spec g terminalState stateId b)
      as (b1 & Hcall1 & _ & Hids & Habs & _ & Hother).
    rewrite Hcall1 in Hcall. injection Hcall as <-.
    split; [|by rewrite Hids].
    unfold absorbingInvariant. rewrite Hids, Habs, Hother; [done|].
    cbn in Hrow. congruence.
Qed.

Lemma run_preserves g calls : forall b b',
  absorbingInvariant g b ->
  Forall (fun c => rowWritten c <> Some 0) calls ->
  run g calls b = Return tt b' ->
  N.of_nat (getNumberOfStates (stateToId b')) < StateType_modulus ->
  absorbingInvariant g b'
  /\ (getNumberOfStates (stateToId b) <= getNumberOfStates (stateToId b'))%nat.
Proof.
  induction calls as [|c calls IH]; intros b b' Hinv Hrows Hrun Hsize.
  - injection Hrun as <-. done.
  - cbn in Hrun. apply Forall_cons in Hrows as [Hc Hrows].
    destruct (call g c b) as [[] b1| |] eqn:Hcall; try discriminate.
    assert (Hmono : forall b2, absorbingInvariant g b2 ->
              (getNumberOfStates (stateToId b2) <= getNumberOfStates (stateToId b'))%nat ->
              N.of_nat (getNumberOfStates (stateToId b2)) < StateType_modulus) by (intros; lia).
    (* The size after the first call is below the final one, whatever it is. *)
    assert (Hb1 : N.of_nat (getNumberOfStates (stateToId b1)) < StateType_modulus
                  -> absorbingInvariant g b1
                     /\ (getNumberOfStates (stateToId b) <= getNumberOfStates (stateToId b1))%nat)
      by (intros; by eapply call_preserves).
    clear Hmono.
    destruct (decide (N.of_nat (getNumberOfStates (stateToId b1)) < StateType_modulus))
      as [Hsmall|Hbig].
    + destruct (Hb1 Hsmall) as [Hinv1 Hle1].
      destruct (IH b1 b' Hinv1 Hrows Hrun Hsize) as [Hinv' Hle'].
      split; [done|lia].
    + exfalso. apply Hbig. clear Hb1 Hbig.
      (* Sizes only grow along a run. *)
      assert (Hgrow : forall cs x y, run g cs x = Return tt y ->
                (getNumberOfStates (stateToId x) <= getNumberOfStates (stateToId y))%nat).
      { clear. induction cs as [|c cs IHcs]; intros x y Hxy.
        - injection Hxy as <-. done.
        - cbn in Hxy. destruct (call g c x) as [[] x1| |] eqn:Hc; try discriminate.
          specialize (IHcs _ _ Hxy).
          enough (getNumberOfStates (stateToId x) <= getNumberOfStates (stateToId x1))%nat by lia.
          clear IHcs Hxy. destruct c as [| |state|state|from to_ p|terminalState stateId]; cbn in Hc.
          + apply setUpAbsorbingState_return in Hc as [[-> _] | (_ & _ & _ & Hfind & _)]; [done|].
            unfold findOrAdd in Hfind.
            destruct (stateToId x !! absorbingState x1) eqn:Hl.
            * injection Hfind as _ Hm. by rewrite <- Hm.
            * injection Hfind as Hm. rewrite <- Hm. unfold getNumberOfStates.
              rewrite map_size_insert_None by done. lia.
          + injection Hc as <-. unfold reset. by destruct (fresh x).
          + injection Hc as <-. unfold getOrAddStateIndex, findOrAdd.
            destruct (stateToId x !! state) eqn:Hl; rewrite ?Hl; cbn; [done|].
            unfold getNumberOfStates. rewrite map_size_insert_None by done. lia.
          + injection Hc as <-. by rewrite getStateIndexOrAbsorbing_eq.
          + injection Hc as <-. done.
          + destruct (connectTerminalStatesToAbsorbing_spec g terminalState stateId x)
              as (x2 & Hcall2 & _ & Hids & _).
            rewrite Hcall2 in Hc. injection Hc as <-. by rewrite Hids. }
      specialize (Hgrow _ _ _ Hrun). lia.
Qed.


End BuilderTheory.

(** ** Properties of the first explorer *)
Module LegacyTheory.
Import Legacy.

(** *** Comparisons of floating-point numbers *)

Lemma SFcompare_antisym x y c :
  SFcompare x y = Some c -> SFcompare y x = Some (CompOpp c).
Proof.
  destruct x as [sx|sx| |sx mx ex], y as [sy|sy| |sy my ey]; cbn;
    try discriminate;
    repeat match goal with s : bool |- _ => destruct s end;
    try (intros [= <-]; reflexivity).
  - intros [= <-]. f_equal. rewrite (Z.compare_antisym ex ey).
    destruct (ex ?= ey)%Z; cbn; try reflexivity.
    rewrite CompOpp_involutive. exact (Pos.compare_cont_antisym my mx Eq).
  - intros [= <-]. f_equal. rewrite (Z.compare_antisym ex ey).
    destruct (ex ?= ey)%Z; cbn; try reflexivity.
    symmetry. exact (Pos.compare_cont_antisym mx my Eq).
Qed.

(** [kappa <= pi] excludes [pi < kappa], also for infinities and NaN. *)
Lemma leb_not_ltb (kappa pi : float) :
  PrimFloat.leb kappa pi = true -> PrimFloat.ltb pi kappa = false.
Proof.
  rewrite leb_spec, ltb_spec. unfold SFleb, SFltb.
  destruct (SFcompare (Prim2SF kappa) (Prim2SF pi)) as [c|] eqn:E; [|discriminate].
  rewrite (SFcompare_antisym _ _ _ E). by destruct c.
Qed.

(** *** What the callback and the loops leave alone *)

Section Preserved.
Context {S X : Type} (f : S -> X) (cb : Callback S).
Hypothesis cb_preserves : forall s b, f (cb s b).2 = f b.

Lemma expandChoice_preserves c : forall b, f (expandChoice cb c b).2 = f b.
Proof.
  induction c as [|[s' r] c IH]; intros b; [done|].
  cbn. destruct (cb s' b) as [id b1] eqn:E1.
  destruct (expandChoice cb c b1) as [rest b2] eqn:E2. cbn.
  specialize (IH b1). rewrite E2 in IH. cbn in IH. rewrite IH.
  specialize (cb_preserves s' b). by rewrite E1 in cb_preserves.
Qed.

Lemma expandChoices_preserves cs : forall b, f (expandChoices cb cs b).2 = f b.
Proof.
  induction cs as [|c cs IH]; intros b; [done|].
  cbn. destruct (expandChoice cb c b) as [c1 b1] eqn:E1.
  destruct (expandChoices cb cs b1) as [rest b2] eqn:E2. cbn.
  specialize (IH b1). rewrite E2 in IH. cbn in IH. rewrite IH.
  pose proof (expandChoice_preserves c b) as H. by rewrite E1 in H.
Qed.
End Preserved.

Lemma shouldEnqueue_frame previousState b :
  callbackFrame (shouldEnqueue previousState b).2 = callbackFrame b
  /\ statesToExplore (shouldEnqueue previousState b).2 = statesToExplore b
  /\ stateToId (shouldEnqueue previousState b).2 = stateToId b.
Proof.
  unfold shouldEnqueue, callbackFrame.
  destruct (piMap b !! previousState); cbn.
  - by destruct (PrimFloat.eqb _ _).
  - unfold error. rewrite oracleCalls_app_message. done.
Qed.

Lemma getOrAddStateIndex_frame state b :
  callbackFrame (getOrAddStateIndex state b).2 = callbackFrame b.
Proof.
  unfold getOrAddStateIndex.
  destruct (findOrAdd _ _ _) as [actualIndex m].
  destruct (N.eqb _ _); [|done].
  destruct (shouldEnqueue actualIndex (set_stateToId m b)) as [enqueue b2] eqn:E.
  pose proof (shouldEnqueue_frame actualIndex (set_stateToId m b)) as (H & _).
  rewrite E in H. cbn in H. by destruct enqueue.
Qed.

Lemma addTransition_frame currentIndex row acc pair :
  expansionFrame (addTransition currentIndex row acc pair).1 = expansionFrame acc.1.
Proof.
  destruct acc as [b es], pair as [sPrime r]. unfold addTransition.
  cbn. by destruct (negb _).
Qed.

Lemma fold_addTransition_frame currentIndex row choice : forall acc,
  expansionFrame (fold_left (addTransition currentIndex row) choice acc).1
  = expansionFrame acc.1.
Proof.
  induction choice as [|pair choice IH]; intros acc; [done|].
  cbn. rewrite IH. apply addTransition_frame.
Qed.

Lemma addChoices_frame currentIndex behavior : forall b mb,
  expansionFrame (addChoices currentIndex behavior b mb).1 = expansionFrame b.
Proof.
  induction behavior as [|choice rest IH]; intros b mb; [done|].
  cbn. destruct (fold_left _ choice (b, entries mb)) as [b1 es] eqn:E.
  rewrite IH.
  pose proof (fold_addTransition_frame currentIndex (currentRow mb) choice (b, entries mb)) as H.
  by rewrite E in H.
Qed.

Lemma piAt_insert_if_absent k pm k' :
  piAt (piMap_insert_if_absent k pm) k' = piAt pm k'.
Proof.
  unfold piMap_insert_if_absent, piAt.
  destruct (pm !! k) eqn:E; [done|].
  destruct (decide (k = k')) as [->|Hne].
  - by rewrite lookup_insert_eq, E.
  - by rewrite lookup_insert_ne.
Qed.

(** *** One pass of the exploration loop *)

(** The state the loop body works on after its message and after
    [currentIndex] was given an entry of [piMap]. *)
Lemma exploreState_prepared currentIndex b :
  let b1 := if N.eqb (currentIndex mod 100000) 0
            then log (info ("Exploring state with id " +:+ pretty currentIndex +:+ ".")) b
            else b in
  let b2 := set_piMap (piMap_insert_if_absent currentIndex (piMap b1)) b1 in
  tSet b2 = tSet b /\ tMap b2 = tMap b
  /\ oracleCalls (trace b2) = oracleCalls (trace b)
  /\ piAt (piMap b2) currentIndex = piAt (piMap b) currentIndex.
Proof.
  cbn zeta. destruct (N.eqb _ _); cbn; rewrite ?piAt_insert_if_absent; try done.
  unfold info. by rewrite oracleCalls_app_message.
Qed.

(** After the skip test failed, the generator is asked once. *)
Lemma expansion_asks_oracle g currentState_ currentIndex b mb :
  let b3 := log (OracleExpand currentState_) (log (OracleLoad currentState_) b) in
  let o :=
    let '(behavior, b) := expandChoices getOrAddStateIndex (behaviour g currentState_) b3 in
    match behavior with
    | [] => Exit (behaviorWasEmpty currentIndex) (b, mb)
    | _ :: _ =>
        let shouldEnqueueAll := PrimFloat.eqb (piAt (piMap b) currentIndex) 0%float in
        let b :=
          if negb shouldEnqueueAll && set_contains (tMap b) currentIndex
          then set_tMap (tMap b ∖ {[currentIndex]}) b
          else b in
        let '(b, mb) := addChoices currentIndex behavior b mb in
        let b := set_piMap (<[currentIndex := 0%float]> (piMap b)) b in
        Return tt (b, mkMatrixBuilder (entries mb) (currentRow mb) (currentRowGroup mb + 1))
    end in
  oracleCalls (trace (finalState o).1) = oracleCalls (trace b) ++ [currentState_]
  /\ tSet (finalState o).1 = tSet b.
Proof.
  cbn zeta.
  set (b3 := log (OracleExpand currentState_) (log (OracleLoad currentState_) b)).
  pose proof (expandChoices_preserves callbackFrame getOrAddStateIndex
                getOrAddStateIndex_frame (behaviour g currentState_) b3) as Hframe.
  destruct (expandChoices getOrAddStateIndex (behaviour g currentState_) b3)
    as [behavior b4] eqn:E.
  cbn [snd] in Hframe.
  assert (Hcalls : oracleCalls (trace b4) = oracleCalls (trace b) ++ [currentState_]
                   /\ tSet b4 = tSet b).
  { unfold callbackFrame in Hframe. injection Hframe as _ Ht _ _ _ _ Hc.
    rewrite Hc, Ht. subst b3. cbn. rewrite !oracleCalls_app. cbn.
    by rewrite !app_nil_r. }
  destruct behavior as [|choice rest]; [exact Hcalls|].
  set (b5 := if negb (PrimFloat.eqb (piAt (piMap b4) currentIndex) 0%float)
                && set_contains (tMap b4) currentIndex
             then set_tMap (tMap b4 ∖ {[currentIndex]}) b4 else b4).
  pose proof (addChoices_frame currentIndex (choice :: rest) b5 mb) as Hexp.
  destruct (addChoices currentIndex (choice :: rest) b5 mb) as [b6 mb'] eqn:E2.
  cbn [finalState fst] in *. cbn [trace tSet set_piMap].
  unfold expansionFrame in Hexp. injection Hexp as _ _ Ht _ _ _ _ Htr.
  rewrite Htr, Ht. subst b5. by destruct (_ && _).
Qed.

(** [stateB], terminal with estimate 0.25: skipped for [kappa = 0.5],
    expanded for [kappa = 0.125]. *)
Example stateB_skipped :
  exploreState (exampleGenerator CTMC [stateA]) 0.5%float stateB 1 terminalB
    (mkMatrixBuilder [] 0 0)
  = Return tt (terminalB, mkMatrixBuilder [] 0 0).
Proof. vm_compute. reflexivity. Qed.

Example stateB_expanded :
  let o := exploreState (exampleGenerator CTMC [stateA]) 0.125%float stateB 1 terminalB
             (mkMatrixBuilder [] 0 0) in
  oracleCalls (trace (finalState o).1) = [stateB]
  /\ entries (finalState o).2 = [(0, 0, 1%float)]
  /\ piMap (finalState o).1 !! 0 = Some 1.25%float
  /\ piMap (finalState o).1 !! 1 = Some 0%float.
Proof. cbn zeta. repeat (split_conj; [vm_compute; reflexivity|]). vm_compute. reflexivity. Qed.

(** The pass for a state the skip test lets through. *)
Lemma exploreState_not_skipped g kappa currentState_ currentIndex b mb :
  currentIndex ∉ tSet b \/ PrimFloat.ltb (piAt (piMap b) currentIndex) kappa = false ->
  exploreState g kappa currentState_ currentIndex b mb =
  let b1 := if N.eqb (currentIndex mod 100000) 0
            then log (info ("Exploring state with id " +:+ pretty currentIndex +:+ ".")) b
            else b in
  let b2 := set_piMap (piMap_insert_if_absent currentIndex (piMap b1)) b1 in
  let b3 := log (OracleExpand currentState_) (log (OracleLoad currentState_) b2) in
  let '(behavior, b) := expandChoices getOrAddStateIndex (behaviour g currentState_) b3 in
  match behavior with
  | [] => Exit (behaviorWasEmpty currentIndex) (b, mb)
  | _ :: _ =>
      let shouldEnqueueAll := PrimFloat.eqb (piAt (piMap b) currentIndex) 0%float in
      let b :=
        if negb shouldEnqueueAll && set_contains (tMap b) currentIndex
        then set_tMap (tMap b ∖ {[currentIndex]}) b
        else b in
      let '(b, mb) := addChoices currentIndex behavior b mb in
      let b := set_piMap (<[currentIndex := 0%float]> (piMap b)) b in
      Return tt (b, mkMatrixBuilder (entries mb) (currentRow mb) (currentRowGroup mb + 1))
  end.
Proof.
  intros Hexpand.
  pose proof (exploreState_prepared currentIndex b) as Hprep. cbn zeta in Hprep.
  unfold exploreState. cbn zeta.
  set (b1 := if N.eqb (currentIndex mod 100000) 0 then _ else b) in *.
  set (b2 := set_piMap (piMap_insert_if_absent currentIndex (piMap b1)) b1) in *.
  destruct Hprep as (Ht & _ & _ & Hpi).
  unfold set_contains at 1. rewrite Ht, Hpi.
  destruct Hexpand as [Hnot| ->].
  - by rewrite bool_decide_eq_false_2.
  - by rewrite andb_false_r.
Qed.

(** *** The reachability update and the matrix rows *)

(** One successor of one choice: its estimate grows by the estimate
    of the expanded state times the rate, both in single precision,
    no other estimate changes, and the matrix gets the rate as
    narrowed to [float]. *)
Lemma addTransition_spec currentIndex row b es sPrime r :
  let acc := addTransition currentIndex row (b, es) (sPrime, r) in
  piAt (piMap acc.1) sPrime
  = float_add (piAt (piMap b) sPrime) (float_mul (piAt (piMap b) currentIndex) (to_float r))
  /\ (forall k, k <> sPrime -> piAt (piMap acc.1) k = piAt (piMap b) k)
  /\ acc.2 = es ++ [(row, sPrime, to_float r)].
Proof.
  cbn zeta. unfold addTransition.
  set (pm := piMap_insert_if_absent sPrime (piMap b)).
  assert (Hpm : forall k, piAt pm k = piAt (piMap b) k)
    by (intros k; apply piAt_insert_if_absent).
  destruct (negb _); cbn; (split; [|split; [|done]]).
  all: try (unfold piAt at 1; rewrite lookup_insert_eq; cbn; by rewrite !Hpm).
  all: intros k Hk; unfold piAt at 1; rewrite lookup_insert_ne by done; apply Hpm.
Qed.

Lemma fold_addTransition_entries currentIndex row choice : forall b es,
  (fold_left (addTransition currentIndex row) choice (b, es)).2
  = es ++ map (fun p => (row, p.1, to_float p.2)) choice.
Proof.
  induction choice as [|[sPrime r] choice IH]; intros b es; cbn [fold_left map].
  - by rewrite app_nil_r.
  - destruct (addTransition currentIndex row (b, es) (sPrime, r)) as [b1 es1] eqn:E.
    pose proof (addTransition_spec currentIndex row b es sPrime r) as (_ & _ & Hes).
    cbn zeta in Hes. rewrite E in Hes. cbn in Hes. subst es1.
    rewrite IH. by rewrite <- app_assoc.
Qed.

Lemma addChoices_entries currentIndex behavior : forall b mb,
  (addChoices currentIndex behavior b mb).2
  = mkMatrixBuilder (entries mb ++ behaviorEntries (currentRow mb) behavior)
      (currentRow mb + N.of_nat (length behavior)) (currentRowGroup mb).
Proof.
  induction behavior as [|choice rest IH]; intros b mb.
  - cbn. rewrite app_nil_r, N.add_0_r. by destruct mb.
  - cbn [addChoices behaviorEntries length].
    pose proof (fold_addTransition_entries currentIndex (currentRow mb) choice b (entries mb)) as H.
    destruct (fold_left _ choice (b, entries mb)) as [b1 es]. cbn in H. subst es.
    rewrite IH. cbn [entries currentRow currentRowGroup].
    rewrite <- app_assoc. f_equal. lia.
Qed.

Lemma expandChoice_rates {S : Type} (cb : Callback S) c : forall b,
  map snd (expandChoice cb c b).1 = map snd c.
Proof.
  induction c as [|[s' r] c IH]; intros b; [done|].
  cbn. destruct (cb s' b) as [id b1]. specialize (IH b1).
  destruct (expandChoice cb c b1) as [rest b2]. cbn in *. by rewrite IH.
Qed.

Lemma expandChoices_rates {S : Type} (cb : Callback S) cs : forall b,
  map (map snd) (expandChoices cb cs b).1 = map (map snd) cs.
Proof.
  induction cs as [|c cs IH]; intros b; [done|].
  cbn. pose proof (expandChoice_rates cb c b) as Hc.
  destruct (expandChoice cb c b) as [c1 b1]. specialize (IH b1).
  destruct (expandChoices cb cs b1) as [rest b2]. cbn in *. by rewrite Hc, IH.
Qed.

(** The expansion of a state with behaviour: every choice becomes one
    row holding, for each successor in order, the id the callback gave
    and the rate narrowed to [float]; the rates behind those entries
    are the generator's, in its order; and at the end the estimate of
    the expanded state is 0. *)
Lemma exploreState_expands g kappa currentState_ currentIndex b mb :
  currentIndex ∉ tSet b \/ PrimFloat.ltb (piAt (piMap b) currentIndex) kappa = false ->
  behaviour g currentState_ <> [] ->
  exists b' behavior,
    exploreState g kappa currentState_ currentIndex b mb
    = Return tt (b', mkMatrixBuilder
                       (entries mb ++ behaviorEntries (currentRow mb) behavior)
                       (currentRow mb + N.of_nat (length behavior))
                       (currentRowGroup mb + 1))
    /\ map (map snd) behavior = map (map snd) (behaviour g currentState_)
    /\ piMap b' !! currentIndex = Some 0%float.
Proof.
  intros Hexpand Hbeh. rewrite exploreState_not_skipped by done. cbn zeta.
  match goal with |- context [expandChoices getOrAddStateIndex _ ?b3] =>
    pose proof (expandChoices_rates getOrAddStateIndex (behaviour g currentState_) b3) as Hrates;
    destruct (expandChoices getOrAddStateIndex (behaviour g currentState_) b3)
      as [behavior b4] end.
  cbn [fst] in Hrates.
  destruct behavior as [|choice rest].
  { destruct (behaviour g currentState_); [done|discriminate]. }
  match goal with |- context [addChoices currentIndex _ ?b5 mb] =>
    pose proof (addChoices_entries currentIndex (choice :: rest) b5 mb) as Hentries;
    destruct (addChoices currentIndex (choice :: rest) b5 mb) as [b6 mb'] end.
  cbn [snd] in Hentries. subst mb'.
  eexists _, (choice :: rest). split; [reflexivity|]. split; [done|].
  cbn. apply lookup_insert_eq.
Qed.

(** *** The callback and the queue *)

Lemma app_one_neq {A : Type} (l : list A) (x : A) : l ++ [x] <> l.
Proof. intros H. apply (f_equal length) in H. rewrite length_app in H. cbn in H. lia. Qed.

Lemma getOrAddStateIndex_id state b :
  (getOrAddStateIndex state b).1
  = (findOrAdd state (to_StateType (getNumberOfStates (stateToId b))) (stateToId b)).1.
Proof.
  unfold getOrAddStateIndex.
  destruct (findOrAdd state _ (stateToId b)) as [actualIndex m].
  destruct (N.eqb actualIndex _); [|done].
  destruct (shouldEnqueue actualIndex (set_stateToId m b)) as [[] b2]; done.
Qed.

(** C3, as the code has it.  [getOrAddStateIndex] answers the index
    [findOrAdd] returns, and pushes the pair of the successor and that
    index onto the back of the queue exactly when the index equals the
    one reserved for a new state and [shouldEnqueue] accepts it;
    otherwise the queue is as it was.  So a successor that is already
    registered under another index is never pushed, whatever the
    terminal set holds. *)
Theorem getOrAddStateIndex_enqueues_new_only (state : CompressedState) (b : State) :
  let newIndex := to_StateType (getNumberOfStates (stateToId b)) in
  let found := findOrAdd state newIndex (stateToId b) in
  let id := (getOrAddStateIndex state b).1 in
  let b' := (getOrAddStateIndex state b).2 in
  id = found.1
  /\ (statesToExplore b' = statesToExplore b ++ [(state, id)]
      <-> id = newIndex /\ (shouldEnqueue id (set_stateToId found.2 b)).1 = true)
  /\ (statesToExplore b' = statesToExplore b
      \/ statesToExplore b' = statesToExplore b ++ [(state, id)])
  /\ (forall id0, stateToId b !! state = Some id0 -> id0 <> newIndex ->
      statesToExplore b' = statesToExplore b).
Proof.
  cbn zeta. rewrite getOrAddStateIndex_id. split; [done|].
  unfold getOrAddStateIndex.
  destruct (findOrAdd state _ (stateToId b)) as [actualIndex m] eqn:Hfind. cbn [fst snd].
  destruct (N.eqb actualIndex _) eqn:Hnew.
  - apply N.eqb_eq in Hnew.
    pose proof (shouldEnqueue_frame actualIndex (set_stateToId m b)) as (_ & Hqueue & _).
    destruct (shouldEnqueue actualIndex (set_stateToId m b)) as [[] b2]; cbn in *;
      rewrite Hqueue.
    + split; [done|]. split; [by right|].
      intros id0 Hid0 Hne. unfold findOrAdd in Hfind. rewrite Hid0 in Hfind.
      injection Hfind as Hid _. congruence.
    + split; [|split; [by left|done]]. split.
      * intros H. symmetry in H. by apply app_one_neq in H.
      * intros [_ H]. discriminate.
  - apply N.eqb_neq in Hnew. cbn. split; [|split; [by left|done]]. split.
    + intros H. symmetry in H. by apply app_one_neq in H.
    + intros [H _]. done.
Qed.

(** C3, as the claim has it, fails.  In [terminalB] the successor
    [stateB] is registered, terminal and not queued, so the policy of
    the spec pushes it; the callback returns its id and leaves the
    builder as it was.  And the new successor [stateC], which the
    policy pushes too, is registered under id 2 and reported as
    unexpected, and the queue stays empty. *)
Lemma registered_terminal_successor_not_enqueued :
  specEnqueuePolicy (bool_decide (1 ∈ (statesToExplore terminalB).*2))
    (bool_decide (stateToId terminalB !! stateB = None))
    (set_contains (tSet terminalB) 1) = true
  /\ getOrAddStateIndex stateB terminalB = (1, terminalB)
  /\ specEnqueuePolicy (bool_decide (2 ∈ (statesToExplore terminalB).*2))
       (bool_decide (stateToId terminalB !! stateC = None))
       (set_contains (tSet terminalB) 2) = true
  /\ (getOrAddStateIndex stateC terminalB).1 = 2
  /\ statesToExplore (getOrAddStateIndex stateC terminalB).2 = [].
Proof. repeat (split_conj; [vm_compute; reflexivity|]). vm_compute. reflexivity. Qed.

(** *** The initial states *)

Lemma registerStates_length {S : Type} (cb : Callback S) l : forall b,
  length (registerStates cb l b).1 = length l.
Proof.
  induction l as [|s l IH]; intros b; [done|].
  cbn. destruct (cb s b) as [id b1]. specialize (IH b1).
  destruct (registerStates cb l b1) as [rest b2]. cbn in *. by rewrite IH.
Qed.

(** C6, as the code has it: the test before the message is negated.
    With no initial state the explorer prints nothing and goes on with
    an empty queue; with initial states it prints
    [Initial states are empty!] and goes on. *)
Theorem initial_states_check_is_negated (g : Generator) (b : State) :
  (initialStates g = [] ->
     registerInitialStates g b = set_initialStateIndices [] (log OracleInitialStates b)
     /\ errors (trace (registerInitialStates g b)) = errors (trace b))
  /\ (initialStates g <> [] ->
      exists b2,
        registerInitialStates g b = log (error "Initial states are empty!") b2
        /\ initialStateIndices b2 <> [])
  /\ errors (trace (registerInitialStates (exampleGenerator CTMC []) exploringA)) = []
  /\ errors (trace (registerInitialStates (exampleGenerator CTMC [stateA]) exploringA))
     = ["Initial states are empty!"].
Proof.
  split; [|split; [|split; vm_compute; reflexivity]].
  - intros Hinit. unfold registerInitialStates. rewrite Hinit. cbn.
    split; [done|]. unfold errors. rewrite omap_app. cbn. by rewrite app_nil_r.
  - intros Hinit. unfold registerInitialStates.
    pose proof (registerStates_length getOrAddStateIndex (initialStates g)
                  (log OracleInitialStates b)) as Hlen.
    destruct (registerStates _ _ _) as [ids b1]. cbn in Hlen |- *.
    assert (Hids : ids <> []).
    { intros ->. destruct (initialStates g); [done|discriminate]. }
    rewrite bool_decide_eq_false_2 by done. cbn.
    eexists. split; [reflexivity|done].
Qed.

(** *** States without behaviour *)

(** C5, as the code has it.  When the state at the head of the queue
    passes the skip test and the generator gives it no behaviour, the
    exploration ends there with the fatal error
    [Behavior for state <id> was empty!]: the generator was asked, the
    matrix builder got no entry (no self-loop), the terminal sets are
    as they were, and the states behind it in the queue are left
    unexplored.  The self-loop of rate 1 is what the flush of the
    buffered builder emits for a row without buffered transitions. *)
Theorem empty_behaviour_is_fatal (g : Generator) (kappa : ValueType)
    (currentState_ : CompressedState) (currentIndex : StateType)
    (queue : list (CompressedState * StateType)) (b : State) (mb : MatrixBuilder)
    (fuel : nat) :
  statesToExplore b = (currentState_, currentIndex) :: queue ->
  behaviour g currentState_ = [] ->
  currentIndex ∉ tSet b \/ PrimFloat.ltb (piAt (piMap b) currentIndex) kappa = false ->
  (exists b',
     explore (S fuel) g kappa b mb = Some (Exit (behaviorWasEmpty currentIndex) (b', mb))
     /\ statesToExplore b' = queue
     /\ tSet b' = tSet b /\ tMap b' = tMap b
     /\ oracleCalls (trace b') = oracleCalls (trace b) ++ [currentState_])
  /\ (forall (bb : Builder.State) (row : N),
        Builder.transitionsToAdd bb !! N.to_nat row = Some [] ->
        Builder.rowOf row (Builder.flushToTransitionMatrix bb []) = [(row, row, 1%float)]).
Proof.
  intros Hqueue Hbeh Hexpand. split.
  - cbn [explore]. rewrite Hqueue.
    set (b0 := set_statesToExplore queue (set_currentState currentIndex b)).
    assert (Hexpand0 : currentIndex ∉ tSet b0
                       \/ PrimFloat.ltb (piAt (piMap b0) currentIndex) kappa = false) by done.
    rewrite (exploreState_not_skipped g kappa currentState_ currentIndex b0 mb Hexpand0).
    rewrite Hbeh. cbn zeta. cbn [expandChoices].
    pose proof (exploreState_prepared currentIndex b0) as (Ht & Htm & Hcalls & _).
    eexists. split; [reflexivity|].
    cbn [trace tSet tMap statesToExplore log] in *.
    rewrite Ht, Htm. rewrite !oracleCalls_app. cbn [oracleCalls]. rewrite Hcalls.
    rewrite !app_nil_r. repeat split; try done.
    by destruct (N.eqb _ _).
  - intros bb row Hrow. unfold Builder.flushToTransitionMatrix.
    rewrite BuilderTheory.flushRows_eq. cbn [app].
    rewrite BuilderTheory.rowOf_allRowEntries.
    destruct (decide (0 <= row)); [|lia]. by rewrite N.sub_0_r, Hrow.
Qed.

Lemma empty_behaviour_is_fatal_witness :
  exists b',
    explore 1 (exampleGenerator CTMC [stateD]) 0.5%float queuedD (mkMatrixBuilder [] 0 0)
    = Some (Exit (behaviorWasEmpty 0) (b', mkMatrixBuilder [] 0 0))
    /\ statesToExplore b' = []
    /\ tSet b' = tSet queuedD /\ tMap b' = tMap queuedD
    /\ oracleCalls (trace b') = oracleCalls (trace queuedD) ++ [stateD].
Proof.
  destruct (empty_behaviour_is_fatal (exampleGenerator CTMC [stateD]) 0.5%float
              stateD 0 [] queuedD (mkMatrixBuilder [] 0 0) 0) as [H _].
  - reflexivity.
  - reflexivity.
  - right. vm_compute. reflexivity.
  - exact H.
Defined.

(** C5, as the claim has it, fails: for the deadlocked state [stateD]
    of the small model the exploration stops with the error and the
    matrix has no entry, so no self-loop for the state. *)
Lemma deadlock_state_is_fatal :
  let o := explore 5 (exampleGenerator CTMC [stateD]) 0.5%float queuedD
             (mkMatrixBuilder [] 0 0) in
  exists b',
    o = Some (Exit "Behavior for state 0 was empty!" (b', mkMatrixBuilder [] 0 0))
    /\ errors (trace b') = [].
Proof.
  cbn zeta.
  exists (match explore 5 (exampleGenerator CTMC [stateD]) 0.5%float queuedD
                  (mkMatrixBuilder [] 0 0) with
          | Some o => (finalState o).1
          | None => queuedD
          end).
  split; vm_compute; reflexivity.
Qed.

End LegacyTheory.

(** ** Properties of [build] *)
Module BuildTheory.

(** C9, as the code has it.  For a model type other than CTMC the
    first builder prints [This model type is not supported!] and
    returns the null pointer without building anything.  The buffered
    builder does the same for every type other than CTMC and DTMC; for
    a DTMC it prints a warning, builds the components and returns a
    DTMC model of them. *)
Theorem build_rejects_unsupported_model_types
    (buildModelComponents : Builder.State -> Outcome Builder.State ModelComponents)
    (g : Generator) (fuel : nat) (kappa : ValueType)
    (legacy : Legacy.State) (b : Builder.State) :
  getModelType g <> CTMC ->
  Legacy.build fuel g kappa legacy
  = Some (Return Nullptr (Legacy.log (error "This model type is not supported!") legacy))
  /\ (getModelType g <> DTMC ->
      Builder.build buildModelComponents g b
      = Return Nullptr (Builder.log (error "This model type is not supported!") b))
  /\ (getModelType g = DTMC ->
      forall components b',
        buildModelComponents
          (Builder.log
             (warning ("This model is a DTMC. If you are using this in the STAMINA program, "
                       +:+ "currently, only CTMCs are supported. You may get an error in checking."))
             (Builder.set_isCtmc false b))
        = Return components b' ->
        Builder.build buildModelComponents g b = Return (Model Dtmc components) b').
Proof.
  intros Hctmc. unfold Legacy.build, Builder.build.
  destruct (getModelType g); try done; (split; [done|]); split; try done.
  intros _ components b' ->. done.
Qed.

Lemma build_rejects_unsupported_model_types_witness :
  Legacy.build 0 (exampleGenerator MDP [stateA]) 0.5%float exploringA
  = Some (Return Nullptr
            (Legacy.log (error "This model type is not supported!") exploringA))
  /\ Builder.build (fun b => Return (mkModelComponents [] [] [] true) b)
       (exampleGenerator MDP [stateA]) Builder.initial
     = Return Nullptr
         (Builder.log (error "This model type is not supported!") Builder.initial).
Proof.
  destruct (build_rejects_unsupported_model_types
              (fun b => Return (mkModelComponents [] [] [] true) b)
              (exampleGenerator MDP [stateA]) 0 0.5%float exploringA Builder.initial)
    as (Hlegacy & Hbuilder & _).
  - discriminate.
  - split; [exact Hlegacy|]. apply Hbuilder. discriminate.
Defined.

(** C9, as the claim has it, fails: for a DTMC the buffered builder
    returns a model and prints no error. *)
Lemma dtmc_model_is_built :
  let components := mkModelComponents [(0, 0, 1%float)] [1] [0] false in
  let o := Builder.build (fun b => Return components b)
             (exampleGenerator DTMC [stateA]) Builder.initial in
  getModelType (exampleGenerator DTMC [stateA]) <> CTMC
  /\ o = Return (Model Dtmc components) (finalState o)
  /\ errors (Builder.trace (finalState o)) = [].
Proof. cbn zeta. split; [discriminate|]. split; vm_compute; reflexivity. Qed.

End BuildTheory.

(** ** Sorted lists *)

Lemma StronglySorted_constant (r : N) (l : list N) :
  Forall (fun x => x = r) l -> StronglySorted N.le l.
Proof.
  induction 1 as [|x l -> Hl IH]; constructor; [done|].
  eapply Forall_impl; [exact Hl|]. intros y ->. cbn. lia.
Qed.

Lemma StronglySorted_le_app (l1 l2 : list N) :
  StronglySorted N.le l1 -> StronglySorted N.le l2 ->
  (forall x1 x2, x1 ∈ l1 -> x2 ∈ l2 -> x1 <= x2) ->
  StronglySorted N.le (l1 ++ l2).
Proof.
  intros H1 H2. induction H1 as [|x l1 Hl1 IH Hx]; intros Hle; [done|].
  cbn. constructor.
  - apply IH. intros x1 x2 Hx1 Hx2. apply Hle; [by right|done].
  - apply Forall_app. split; [done|].
    apply Forall_forall. intros y Hy. apply Hle; [by left|done].
Qed.

(** ** More on the first explorer *)
Module LegacyExtra.
Import Legacy LegacyTheory.

(** *** Registration on a fresh builder *)

Lemma registerStates_preserves {S X : Type} (f : S -> X) (cb : Callback S) :
  (forall s b, f (cb s b).2 = f b) ->
  forall l b, f (registerStates cb l b).2 = f b.
Proof.
  intros Hcb l. induction l as [|s l IH]; intros b; [done|].
  cbn. specialize (Hcb s b). destruct (cb s b) as [id b1].
  specialize (IH b1). destruct (registerStates cb l b1) as [rest b2].
  cbn in *. by rewrite IH.
Qed.

Lemma getOrAddStateIndex_nothingQueued state b :
  nothingQueued b ->
  N.of_nat (size (stateToId b)) < StateType_modulus ->
  nothingQueued (getOrAddStateIndex state b).2
  /\ (size (stateToId (getOrAddStateIndex state b).2) <= S (size (stateToId b)))%nat.
Proof.
  intros (Hqueue & Hids & Hkeys) Hsize.
  unfold getOrAddStateIndex, getNumberOfStates.
  rewrite (BuilderTheory.to_StateType_small _ Hsize).
  unfold findOrAdd. destruct (stateToId b !! state) as [id|] eqn:Hlook.
  - pose proof (Hids _ _ Hlook) as Hlt.
    destruct (N.eqb_spec id (N.of_nat (size (stateToId b)))) as [->|_]; [lia|].
    cbn. split; [|lia]. unfold nothingQueued; cbn. done.
  - rewrite N.eqb_refl. unfold shouldEnqueue. cbn [piMap set_stateToId].
    destruct (piMap b !! N.of_nat (size (stateToId b))) as [p|] eqn:Hpi.
    { assert (N.of_nat (size (stateToId b)) < N.of_nat (size (stateToId b))); [|lia].
      apply Hkeys. by rewrite Hpi. }
    cbn. rewrite map_size_insert_None by done. split; [|lia].
    unfold nothingQueued; cbn. rewrite map_size_insert_None by done.
    split; [done|]. split.
    + intros s id Hs. destruct (decide (state = s)) as [->|Hne].
      * rewrite lookup_insert_eq in Hs. injection Hs as <-. lia.
      * rewrite lookup_insert_ne in Hs by done. specialize (Hids _ _ Hs). lia.
    + intros k Hk. destruct (decide (N.of_nat (size (stateToId b)) = k)) as [<-|Hne]; [lia|].
      rewrite lookup_insert_ne in Hk by done. specialize (Hkeys _ Hk). lia.
Qed.

Lemma registerStates_nothingQueued l : forall b,
  nothingQueued b ->
  N.of_nat (size (stateToId b) + length l) < StateType_modulus ->
  nothingQueued (registerStates getOrAddStateIndex l b).2
  /\ (size (stateToId (registerStates getOrAddStateIndex l b).2)
      <= size (stateToId b) + length l)%nat.
Proof.
  induction l as [|s l IH]; intros b Hinv Hsize.
  - cbn. split; [done|lia].
  - cbn [registerStates].
    destruct (getOrAddStateIndex_nothingQueued s b Hinv) as [Hinv1 Hsize1].
    { cbn [length] in Hsize. lia. }
    destruct (getOrAddStateIndex s b) as [id b1]. cbn [snd] in *.
    destruct (IH b1 Hinv1) as [Hinv2 Hsize2].
    { cbn [length] in Hsize. lia. }
    destruct (registerStates getOrAddStateIndex l b1) as [rest b2]. cbn [snd length] in *.
    split; [done|lia].
Qed.

Lemma registerInitialStates_fresh (g : Generator) (b : State) :
  legacyFresh b ->
  N.of_nat (length (initialStates g)) < StateType_modulus ->
  statesToExplore (registerInitialStates g b) = []
  /\ oracleCalls (trace (registerInitialStates g b)) = oracleCalls (trace b)
  /\ length (initialStateIndices (registerInitialStates g b)) = length (initialStates g).
Proof.
  intros (Hids & Hpi & Hqueue) Hsize.
  unfold registerInitialStates.
  set (b0 := log OracleInitialStates b).
  assert (Hinv0 : nothingQueued b0).
  { unfold nothingQueued; cbn. rewrite Hids, Hpi, Hqueue. split; [done|].
    split; [intros s id Hs|intros k [p Hk]]; by rewrite lookup_empty in *. }
  destruct (registerStates_nothingQueued (initialStates g) b0 Hinv0) as [(Hq & _) _].
  { cbn. rewrite Hids, map_size_empty. lia. }
  pose proof (registerStates_preserves callbackFrame getOrAddStateIndex
                getOrAddStateIndex_frame (initialStates g) b0) as Hframe.
  pose proof (registerStates_length getOrAddStateIndex (initialStates g) b0) as Hlen.
  destruct (registerStates getOrAddStateIndex (initialStates g) b0) as [ids b1].
  cbn [fst snd] in *.
  assert (Hcalls : oracleCalls (trace b1) = oracleCalls (trace b)).
  { unfold callbackFrame in Hframe. injection Hframe as _ _ _ _ _ _ ->.
    subst b0. cbn. rewrite oracleCalls_app. cbn. by rewrite app_nil_r. }
  destruct (negb _); cbn; unfold error; rewrite ?oracleCalls_app_message; done.
Qed.

(** X1.  Started on a builder as the constructor leaves it (nothing
    registered, no estimate, nothing queued), the first explorer
    registers the initial states and explores nothing: the callback
    asks [shouldEnqueue] about the index it has just reserved, which
    [piMap] does not hold, so no state is ever queued.  [buildMatrices]
    returns with the matrix builder untouched and the generator was
    never asked to expand a state; for a CTMC, [build] returns a model
    whose transition matrix is empty. *)
Theorem fresh_explorer_explores_nothing (g : Generator) (kappa : ValueType)
    (fuel : nat) (b : State) :
  legacyFresh b ->
  N.of_nat (length (initialStates g)) < StateType_modulus ->
  let b' := registerInitialStates g b in
  (forall es, buildMatrices fuel g kappa es b = Some (Return tt (b', mkMatrixBuilder es 0 0)))
  /\ statesToExplore b' = []
  /\ oracleCalls (trace b') = oracleCalls (trace b)
  /\ length (initialStateIndices b') = length (initialStates g)
  /\ (getModelType g = CTMC ->
      build fuel g kappa b
      = Some (Return (Model Ctmc (mkModelComponents [] (initialStateIndices b') [] true)) b')).
Proof.
  intros Hfresh Hsize. cbn zeta.
  destruct (registerInitialStates_fresh g b Hfresh Hsize) as (Hq & Hcalls & Hlen).
  assert (Hrun : forall es, buildMatrices fuel g kappa es b
                            = Some (Return tt (registerInitialStates g b, mkMatrixBuilder es 0 0))).
  { intros es. unfold buildMatrices. destruct fuel; cbn [explore]; by rewrite Hq. }
  repeat (split_conj; [done|]).
  intros Hctmc. unfold build, buildModelComponents. rewrite Hctmc, Hrun. cbn.
  unfold isDiscreteTimeModel. by rewrite Hctmc.
Qed.

Lemma fresh_explorer_explores_nothing_witness :
  let g := exampleGenerator CTMC [stateA; stateB] in
  let b := mkState ∅ [] ∅ ∅ ∅ ∅ ∅ [] 0 [] in
  build 0 g 0.5%float b
  = Some (Return (Model Ctmc (mkModelComponents [] [0; 1] [] true))
            (registerInitialStates g b))
  /\ oracleCalls (trace (registerInitialStates g b)) = [].
Proof.
  cbn zeta.
  assert (Hfresh : legacyFresh (mkState ∅ [] ∅ ∅ ∅ ∅ ∅ [] 0 [])) by (repeat split).
  assert (Hsize : N.of_nat (length (initialStates (exampleGenerator CTMC [stateA; stateB])))
                  < StateType_modulus) by (vm_compute; reflexivity).
  destruct (fresh_explorer_explores_nothing (exampleGenerator CTMC [stateA; stateB])
              0.5%float 0 _ Hfresh Hsize) as (_ & _ & Hcalls & _ & Hbuild).
  split; [|exact Hcalls].
  rewrite (Hbuild eq_refl). vm_compute. reflexivity.
Defined.

(** *** What the callback keeps *)

Section Related.
Context {S : Type} (R : S -> S -> Prop) (cb : Callback S).
Hypothesis R_refl : forall b, R b b.
Hypothesis R_trans : forall a b c, R a b -> R b c -> R a c.
Hypothesis cb_related : forall s b, R b (cb s b).2.

Lemma expandChoice_related c : forall b, R b (expandChoice cb c b).2.
Proof.
  induction c as [|[s' r] c IH]; intros b; [apply R_refl|].
  cbn. pose proof (cb_related s' b) as H1. destruct (cb s' b) as [id b1].
  specialize (IH b1). destruct (expandChoice cb c b1) as [rest b2]. cbn in *.
  by eapply R_trans.
Qed.

Lemma expandChoices_related cs : forall b, R b (expandChoices cb cs b).2.
Proof.
  induction cs as [|c cs IH]; intros b; [apply R_refl|].
  cbn. pose proof (expandChoice_related c b) as H1. destruct (expandChoice cb c b) as [c1 b1].
  specialize (IH b1). destruct (expandChoices cb cs b1) as [rest b2]. cbn in *.
  by eapply R_trans.
Qed.

Lemma registerStates_related l : forall b, R b (registerStates cb l b).2.
Proof.
  induction l as [|s l IH]; intros b; [apply R_refl|].
  cbn. pose proof (cb_related s b) as H1. destruct (cb s b) as [id b1].
  specialize (IH b1). destruct (registerStates cb l b1) as [rest b2]. cbn in *.
  by eapply R_trans.
Qed.
End Related.

Lemma callbackStep_refl b : callbackStep b b.
Proof. unfold callbackStep. done. Qed.

Lemma callbackStep_trans a b c : callbackStep a b -> callbackStep b c -> callbackStep a c.
Proof.
  intros (Hf1 & Hi1 & Hp1 & Hq1) (Hf2 & Hi2 & Hp2 & Hq2). unfold callbackStep.
  split; [congruence|]. split; [by etrans|]. split; [|by etrans].
  intros k. by rewrite Hp2, Hp1.
Qed.

Lemma piAt_insert_zero pm k k' :
  pm !! k = None -> piAt (<[k := 0%float]> pm) k' = piAt pm k'.
Proof.
  intros Hk. unfold piAt. destruct (decide (k = k')) as [->|Hne].
  - by rewrite lookup_insert_eq, Hk.
  - by rewrite lookup_insert_ne.
Qed.

Lemma shouldEnqueue_piAt previousState b k :
  piAt (piMap (shouldEnqueue previousState b).2) k = piAt (piMap b) k.
Proof.
  unfold shouldEnqueue. destruct (piMap b !! previousState) eqn:E; cbn.
  - destruct (PrimFloat.eqb _ _); cbn; apply piAt_insert_if_absent.
  - by apply piAt_insert_zero.
Qed.

Lemma getOrAddStateIndex_step state b : callbackStep b (getOrAddStateIndex state b).2.
Proof.
  split; [apply getOrAddStateIndex_frame|].
  unfold getOrAddStateIndex.
  assert (Hsub : stateToId b ⊆ (findOrAdd state (to_StateType (getNumberOfStates (stateToId b)))
                                  (stateToId b)).2).
  { unfold findOrAdd. destruct (stateToId b !! state) eqn:E; cbn; [done|].
    by apply insert_subseteq. }
  destruct (findOrAdd state _ (stateToId b)) as [actualIndex m]. cbn [snd] in Hsub.
  destruct (N.eqb actualIndex _); [|by repeat split].
  pose proof (shouldEnqueue_frame actualIndex (set_stateToId m b)) as (_ & Hq & Hid).
  pose proof (shouldEnqueue_piAt actualIndex (set_stateToId m b)) as Hpi.
  destruct (shouldEnqueue actualIndex (set_stateToId m b)) as [[] b2]; cbn in *.
  - rewrite Hid, Hq. repeat split; try done. by apply prefix_app_r.
  - rewrite Hid, Hq. by repeat split.
Qed.

Lemma getOrAddStateIndex_lookup (state : CompressedState) (b : State) :
  stateToId (getOrAddStateIndex state b).2 !! state = Some (getOrAddStateIndex state b).1.
Proof.
  rewrite getOrAddStateIndex_id. unfold getOrAddStateIndex, findOrAdd.
  destruct (stateToId b !! state) as [id|] eqn:E; cbn.
  - destruct (N.eqb id _); [|done].
    pose proof (shouldEnqueue_frame id (set_stateToId (stateToId b) b)) as (_ & _ & Hid).
    destruct (shouldEnqueue _ _) as [[] b2]; cbn in *; by rewrite Hid.
  - rewrite N.eqb_refl.
    pose proof (shouldEnqueue_frame (to_StateType (getNumberOfStates (stateToId b)))
                  (set_stateToId (<[state := to_StateType (getNumberOfStates (stateToId b))]>
                                    (stateToId b)) b)) as (_ & _ & Hid).
    destruct (shouldEnqueue _ _) as [[] b2]; cbn in *; rewrite Hid; apply lookup_insert_eq.
Qed.

(** *** The loops over the choices *)

Lemma addTransition_exploredStates currentIndex row b es sPrime r :
  exploredStates (addTransition currentIndex row (b, es) (sPrime, r)).1
  = exploredStates b ∪ {[sPrime]}.
Proof.
  unfold addTransition. cbn. unfold set_contains.
  destruct (bool_decide (sPrime ∈ stateMap b)); cbn;
    [destruct (bool_decide_reflect (sPrime ∈ exploredStates b)); cbn|]; set_solver.
Qed.

Lemma fold_addTransition_exploredStates currentIndex row choice : forall b es,
  exploredStates (fold_left (addTransition currentIndex row) choice (b, es)).1
  = exploredStates b ∪ list_to_set choice.*1.
Proof.
  induction choice as [|[sPrime r] choice IH]; intros b es; cbn [fold_left].
  - cbn. set_solver.
  - pose proof (addTransition_exploredStates currentIndex row b es sPrime r) as H.
    destruct (addTransition currentIndex row (b, es) (sPrime, r)) as [b1 es1].
    rewrite IH. cbn in H |- *. rewrite H. set_solver.
Qed.

Lemma addChoices_exploredStates currentIndex behavior : forall b mb,
  exploredStates (addChoices currentIndex behavior b mb).1
  = exploredStates b ∪ successorIds behavior.
Proof.
  unfold successorIds.
  induction behavior as [|choice rest IH]; intros b mb; cbn [addChoices].
  - cbn. set_solver.
  - pose proof (fold_addTransition_exploredStates currentIndex (currentRow mb) choice
                  b (entries mb)) as H.
    destruct (fold_left _ choice (b, entries mb)) as [b1 es]. cbn [fst] in H.
    rewrite IH, H. cbn [concat]. rewrite fmap_app, list_to_set_app_L. set_solver.
Qed.

Lemma expandChoice_resolved c : forall b,
  Forall2 (resolved (stateToId (expandChoice getOrAddStateIndex c b).2))
    c (expandChoice getOrAddStateIndex c b).1.
Proof.
  induction c as [|[s' r] c IH]; intros b; [by constructor|].
  cbn. pose proof (getOrAddStateIndex_lookup s' b) as Hreg.
  destruct (getOrAddStateIndex s' b) as [id b1]. cbn [fst snd] in Hreg.
  specialize (IH b1).
  pose proof (expandChoice_related callbackStep getOrAddStateIndex callbackStep_refl
                callbackStep_trans getOrAddStateIndex_step c b1) as (_ & Hsub & _).
  destruct (expandChoice getOrAddStateIndex c b1) as [rest b2]. cbn [fst snd] in *.
  constructor; [|done]. split; [|done]. by eapply lookup_weaken.
Qed.

Lemma expandChoices_resolved cs : forall b,
  Forall2 (Forall2 (resolved (stateToId (expandChoices getOrAddStateIndex cs b).2)))
    cs (expandChoices getOrAddStateIndex cs b).1.
Proof.
  induction cs as [|c cs IH]; intros b; [by constructor|].
  cbn. pose proof (expandChoice_resolved c b) as Hc.
  destruct (expandChoice getOrAddStateIndex c b) as [c1 b1]. cbn [fst snd] in Hc.
  specialize (IH b1).
  pose proof (expandChoices_related callbackStep getOrAddStateIndex callbackStep_refl
                callbackStep_trans getOrAddStateIndex_step cs b1) as (_ & Hsub & _).
  destruct (expandChoices getOrAddStateIndex cs b1) as [rest b2]. cbn [fst snd] in *.
  constructor; [|done].
  eapply Forall2_impl; [exact Hc|]. intros p q [Hp Hq]. split; [|done].
  by eapply lookup_weaken.
Qed.

(** Everything the expansion of a state does. *)
Lemma exploreState_expansion g kappa currentState_ currentIndex b mb :
  currentIndex ∉ tSet b \/ PrimFloat.ltb (piAt (piMap b) currentIndex) kappa = false ->
  behaviour g currentState_ <> [] ->
  exists b' behavior,
    exploreState g kappa currentState_ currentIndex b mb
    = Return tt (b', mkMatrixBuilder
                       (entries mb ++ behaviorEntries (currentRow mb) behavior)
                       (currentRow mb + N.of_nat (length behavior))
                       (currentRowGroup mb + 1))
    /\ Forall2 (Forall2 (resolved (stateToId b'))) (behaviour g currentState_) behavior
    /\ piMap b' !! currentIndex = Some 0%float
    /\ tMap b' = (if PrimFloat.eqb (piAt (piMap b) currentIndex) 0%float
                  then tMap b else tMap b ∖ {[currentIndex]})
    /\ exploredStates b' = exploredStates b ∪ successorIds behavior
    /\ explorationStep b b'.
Proof.
  intros Hexpand Hbeh. rewrite exploreState_not_skipped by done. cbn zeta.
  pose proof (exploreState_prepared currentIndex b) as Hprep. cbn zeta in Hprep.
  set (b1 := if N.eqb (currentIndex mod 100000) 0 then _ else b) in *.
  set (b2 := set_piMap (piMap_insert_if_absent currentIndex (piMap b1)) b1) in *.
  set (b3 := log (OracleExpand currentState_) (log (OracleLoad currentState_) b2)).
  destruct Hprep as (Ht2 & Htm2 & _ & Hpi2).
  assert (Hb2 : initialStateIndices b2 = initialStateIndices b /\ stateMap b2 = stateMap b
                /\ stateToId b2 = stateToId b /\ exploredStates b2 = exploredStates b).
  { subst b2 b1. by destruct (N.eqb _ _). }
  destruct Hb2 as (Hi2 & Hsm2 & Hid2 & Hex2).
  pose proof (expandChoices_related callbackStep getOrAddStateIndex callbackStep_refl
                callbackStep_trans getOrAddStateIndex_step (behaviour g currentState_) b3)
    as (Hframe & Hsub & Hpi & _).
  pose proof (expandChoices_resolved (behaviour g currentState_) b3) as Hres.
  destruct (expandChoices getOrAddStateIndex (behaviour g currentState_) b3)
    as [behavior b4].
  cbn [fst snd] in *.
  unfold callbackFrame in Hframe.
  injection Hframe as Hi4 Ht4 Htm4 Hsm4 Hex4 _ _.
  assert (Hi : initialStateIndices b4 = initialStateIndices b) by (rewrite <- Hi2; exact Hi4).
  assert (Ht : tSet b4 = tSet b) by (rewrite <- Ht2; exact Ht4).
  assert (Htm : tMap b4 = tMap b) by (rewrite <- Htm2; exact Htm4).
  assert (Hsm : stateMap b4 = stateMap b) by (rewrite <- Hsm2; exact Hsm4).
  assert (Hex : exploredStates b4 = exploredStates b) by (rewrite <- Hex2; exact Hex4).
  assert (Hid : stateToId b ⊆ stateToId b4) by (rewrite <- Hid2; exact Hsub).
  assert (Hpi4 : piAt (piMap b4) currentIndex = piAt (piMap b) currentIndex)
    by (rewrite <- Hpi2; exact (Hpi currentIndex)).
  clear Hi4 Ht4 Htm4 Hsm4 Hex4 Hsub Hpi Hi2 Ht2 Htm2 Hsm2 Hex2 Hid2 Hpi2.
  destruct behavior as [|choice rest].
  { inversion Hres as [Hnil|]. congruence. }
  set (b5 := if negb (PrimFloat.eqb (piAt (piMap b4) currentIndex) 0%float)
                && set_contains (tMap b4) currentIndex
             then set_tMap (tMap b4 ∖ {[currentIndex]}) b4 else b4).
  assert (Hb5 : stateToId b5 = stateToId b4 /\ initialStateIndices b5 = initialStateIndices b4
                /\ tSet b5 = tSet b4 /\ stateMap b5 = stateMap b4
                /\ exploredStates b5 = exploredStates b4
                /\ tMap b5 = (if PrimFloat.eqb (piAt (piMap b) currentIndex) 0%float
                              then tMap b else tMap b ∖ {[currentIndex]})).
  { subst b5. rewrite Hpi4. unfold set_contains.
    destruct (PrimFloat.eqb _ _); cbn [negb andb]; [done|].
    destruct (bool_decide_reflect (currentIndex ∈ tMap b4)) as [Hin|Hnot]; cbn.
    - by rewrite Htm.
    - repeat (split_conj; [done|]). rewrite Htm in *. set_solver. }
  destruct Hb5 as (Hid5 & Hi5 & Ht5 & Hsm5 & Hex5 & Htm5).
  pose proof (addChoices_entries currentIndex (choice :: rest) b5 mb) as Hentries.
  pose proof (addChoices_frame currentIndex (choice :: rest) b5 mb) as Hf6.
  pose proof (addChoices_exploredStates currentIndex (choice :: rest) b5 mb) as Hex6.
  destruct (addChoices currentIndex (choice :: rest) b5 mb) as [b6 mb'].
  cbn [fst snd] in *. subst mb'. unfold expansionFrame in Hf6.
  injection Hf6 as Hid6 Hi6 Ht6 Htm6 Hsm6 _ _ _.
  eexists _, (choice :: rest). split; [reflexivity|].
  cbn [stateToId piMap tMap exploredStates set_piMap].
  split; [by rewrite Hid6, Hid5|]. split; [apply lookup_insert_eq|].
  split; [by rewrite Htm6|]. split; [by rewrite Hex6, Hex5, Hex|].
  unfold explorationStep.
  cbn [initialStateIndices tSet stateMap stateToId tMap exploredStates set_piMap].
  rewrite Hi6, Hi5, Hi, Ht6, Ht5, Ht, Hsm6, Hsm5, Hsm, Hid6, Hid5, Htm6, Htm5, Hex6, Hex5, Hex.
  repeat (split_conj; [done|]). split.
  - clear. destruct (PrimFloat.eqb _ _); set_solver.
  - clear. set_solver.
Qed.


(** *** The exploration loop *)

Lemma explorationStep_refl b : explorationStep b b.
Proof. unfold explorationStep. done. Qed.

Lemma explorationStep_trans a b c :
  explorationStep a b -> explorationStep b c -> explorationStep a c.
Proof.
  intros (Hi1 & Ht1 & Hs1 & Hid1 & Htm1 & He1) (Hi2 & Ht2 & Hs2 & Hid2 & Htm2 & He2).
  unfold explorationStep. repeat split; try congruence; by etrans.
Qed.

Lemma exploreState_step_expanded g kappa currentState_ currentIndex b mb :
  currentIndex ∉ tSet b \/ PrimFloat.ltb (piAt (piMap b) currentIndex) kappa = false ->
  explorationStep b (finalState (exploreState g kappa currentState_ currentIndex b mb)).1.
Proof.
  intros Hexpand. destruct (behaviour g currentState_) as [|choice rest] eqn:Hbeh.
  - rewrite exploreState_not_skipped by done. rewrite Hbeh. cbn.
    unfold explorationStep. by destruct (N.eqb _ _).
  - destruct (exploreState_expansion g kappa currentState_ currentIndex b mb Hexpand)
      as (b' & behavior & -> & _ & _ & _ & _ & Hstep); [by rewrite Hbeh|done].
Qed.

Lemma exploreState_step g kappa currentState_ currentIndex b mb :
  explorationStep b (finalState (exploreState g kappa currentState_ currentIndex b mb)).1.
Proof.
  destruct (decide (currentIndex ∈ tSet b)) as [Hin|Hnot];
    [destruct (PrimFloat.ltb (piAt (piMap b) currentIndex) kappa) eqn:Hlt|].
  - (* skipped *)
    pose proof (exploreState_prepared currentIndex b) as Hprep. cbn zeta in Hprep.
    unfold exploreState.
    set (b1 := if N.eqb (currentIndex mod 100000) 0 then _ else b) in *.
    set (b2 := set_piMap (piMap_insert_if_absent currentIndex (piMap b1)) b1) in *.
    destruct Hprep as (Ht & _ & _ & Hpi).
    unfold set_contains. rewrite Ht, Hpi, Hlt, bool_decide_eq_true_2 by done. cbn.
    subst b2 b1. unfold explorationStep. by destruct (N.eqb _ _).
  - apply exploreState_step_expanded. by right.
  - apply exploreState_step_expanded. by left.
Qed.

(** X2.  Whatever the exploration loop does, and however it ends, the
    states registered at its start keep their indices, the initial
    state indices, [tSet] and [stateMap] are as they were (the explorer
    never writes to them), [tMap] has only lost members and
    [exploredStates] has only gained members. *)
Theorem explore_keeps_assignments (g : Generator) (kappa : ValueType) (fuel : nat) :
  forall (b : State) (mb : MatrixBuilder) (o : Outcome (State * MatrixBuilder) unit),
    explore fuel g kappa b mb = Some o ->
    explorationStep b (finalState o).1.
Proof.
  induction fuel as [|fuel IH]; intros b mb o Hrun; cbn [explore] in Hrun.
  - destruct (statesToExplore b) as [|[cs idx] queue]; [|discriminate].
    injection Hrun as <-. apply explorationStep_refl.
  - destruct (statesToExplore b) as [|[cs idx] queue].
    { injection Hrun as <-. apply explorationStep_refl. }
    set (b1 := set_statesToExplore queue (set_currentState idx b)) in *.
    pose proof (exploreState_step g kappa cs idx b1 mb) as Hstep.
    assert (Hpop : explorationStep b b1) by (unfold explorationStep; done).
    destruct (exploreState g kappa cs idx b1 mb) as [[] [b2 mb2]|text [b2 mb2]|what [b2 mb2]];
      cbn [finalState fst] in Hstep.
    + eapply explorationStep_trans; [exact Hpop|].
      eapply explorationStep_trans; [exact Hstep|]. by eapply IH.
    + injection Hrun as <-. by eapply explorationStep_trans.
    + injection Hrun as <-. by eapply explorationStep_trans.
Qed.

Lemma explore_keeps_assignments_witness :
  let o := Return (S := State * MatrixBuilder) tt
             (mkState {[stateA := 0; stateB := 1]} [0] {[0 := 1.25%float; 1 := 0%float]}
                {[1]} ∅ ∅ {[0]} [] 1 [OracleLoad stateB; OracleExpand stateB],
              mkMatrixBuilder [(0, 0, 1%float)] 1 1) in
  explore 2 (exampleGenerator CTMC [stateA]) 0.125%float queuedB (mkMatrixBuilder [] 0 0)
  = Some o
  /\ explorationStep queuedB (finalState o).1.
Proof.
  cbn zeta.
  assert (H : explore 2 (exampleGenerator CTMC [stateA]) 0.125%float queuedB
                (mkMatrixBuilder [] 0 0) = Some _) by (vm_compute; reflexivity).
  split; [exact H|].
  exact (explore_keeps_assignments _ _ _ _ _ _ H).
Defined.

(** X3.  [getOrAddStateIndex] registers the state: afterwards the
    storage holds it under the index returned, every state registered
    before keeps its index, a second call for the same state returns
    the same index and leaves the storage as it is, and no reachability
    estimate has changed its value (keys are only added, with 0). *)
Theorem getOrAddStateIndex_registers (state : CompressedState) (b : State) :
  let id := (getOrAddStateIndex state b).1 in
  let b' := (getOrAddStateIndex state b).2 in
  stateToId b' !! state = Some id
  /\ (forall s i, stateToId b !! s = Some i -> stateToId b' !! s = Some i)
  /\ (getOrAddStateIndex state b').1 = id
  /\ stateToId (getOrAddStateIndex state b').2 = stateToId b'
  /\ (forall k, piAt (piMap b') k = piAt (piMap b) k).
Proof.
  cbn zeta.
  pose proof (getOrAddStateIndex_step state b) as (_ & Hsub & Hpi & _).
  pose proof (getOrAddStateIndex_lookup state b) as Hreg.
  split; [done|]. split.
  { intros s i Hs. by eapply lookup_weaken. }
  assert (Hagain : (getOrAddStateIndex state (getOrAddStateIndex state b).2).1
                   = (getOrAddStateIndex state b).1).
  { rewrite getOrAddStateIndex_id. unfold findOrAdd. by rewrite Hreg. }
  split; [done|]. split; [|done].
  set (b' := (getOrAddStateIndex state b).2) in *.
  unfold getOrAddStateIndex at 1. unfold findOrAdd. rewrite Hreg.
  destruct (N.eqb _ _); [|done].
  pose proof (shouldEnqueue_frame (getOrAddStateIndex state b).1
                (set_stateToId (stateToId b') b')) as (_ & _ & Hid).
  destruct (shouldEnqueue _ _) as [[] b2]; cbn in *; by rewrite Hid.
Qed.

(** *** The update of an estimate *)

Lemma SFmul_comm prec emax x y : SFmul prec emax x y = SFmul prec emax y x.
Proof.
  destruct x as [sx|sx| |sx mx ex], y as [sy|sy| |sy my ey]; cbn;
    rewrite ?(xorb_comm sx sy); try reflexivity.
  by rewrite (Pos.mul_comm mx my), (Z.add_comm ex ey).
Qed.

Lemma float_mul_comm x y : float_mul x y = float_mul y x.
Proof.
  unfold float_mul. f_equal.
  rewrite <- (SF2Prim_Prim2SF (PrimFloat.mul x y)), <- (SF2Prim_Prim2SF (PrimFloat.mul y x)).
  rewrite !mul_spec. unfold SF64mul. by rewrite SFmul_comm.
Qed.

Lemma piAt_nonzero_present pm k :
  PrimFloat.eqb (piAt pm k) 0%float = false -> is_Some (pm !! k).
Proof.
  unfold piAt. destruct (pm !! k) as [p|]; [by eexists|]. cbn. vm_compute. discriminate.
Qed.

Lemma insert_if_absent_present k pm :
  is_Some (pm !! k) -> piMap_insert_if_absent k pm = pm.
Proof. intros [p Hp]. unfold piMap_insert_if_absent. by rewrite Hp. Qed.

Lemma insert_insert_if_absent k v pm :
  <[k := v]> (piMap_insert_if_absent k pm) = <[k := v]> pm.
Proof.
  unfold piMap_insert_if_absent. destruct (pm !! k); [done|]. apply insert_insert_eq.
Qed.

(** X4.  [updateReachabilityProbability] changes [piMap] only.  The
    previous state has a key afterwards, and no estimate but the
    current state's changes.  When the estimate of the previous state
    is 0 or missing, no estimate changes its value at all.  Otherwise
    the estimate of the current state grows by the single-precision
    product of the transition probability and the estimate of the
    previous state, and this is the update the inner loop of
    [buildMatrices] makes in line for the same pair. *)
Theorem updateReachabilityProbability_effect (currentState_ previousState : StateType)
    (transitionProbability : float) (b : State) :
  let b' := updateReachabilityProbability currentState_ previousState
              transitionProbability b in
  b' = set_piMap (piMap b') b
  /\ is_Some (piMap b' !! previousState)
  /\ (forall k, k <> currentState_ -> piAt (piMap b') k = piAt (piMap b) k)
  /\ (PrimFloat.eqb (piAt (piMap b) previousState) 0%float = true ->
      forall k, piAt (piMap b') k = piAt (piMap b) k)
  /\ (PrimFloat.eqb (piAt (piMap b) previousState) 0%float = false ->
      piMap b'
      = <[currentState_ :=
            float_add (piAt (piMap b) currentState_)
              (float_mul transitionProbability (piAt (piMap b) previousState))]> (piMap b)
      /\ forall row es r,
           to_float r = transitionProbability ->
           piMap (addTransition previousState row (b, es) (currentState_, r)).1 = piMap b').
Proof.
  cbn zeta. unfold updateReachabilityProbability. rewrite !piAt_insert_if_absent.
  assert (Hprev : is_Some (piMap_insert_if_absent previousState (piMap b) !! previousState)).
  { unfold piMap_insert_if_absent. destruct (piMap b !! previousState) eqn:E.
    - by rewrite E.
    - by rewrite lookup_insert_eq. }
  destruct (PrimFloat.eqb (piAt (piMap b) previousState) 0%float) eqn:Hzero.
  - cbn [piMap set_piMap]. split; [done|]. split; [done|].
    split; [intros k _; apply piAt_insert_if_absent|].
    split; [intros _ k; apply piAt_insert_if_absent|done].
  - pose proof (piAt_nonzero_present _ _ Hzero) as Hpresent.
    rewrite (insert_if_absent_present previousState) by done.
    rewrite insert_insert_if_absent. cbn [piMap set_piMap].
    split; [done|]. split.
    { destruct (decide (currentState_ = previousState)) as [->|Hne].
      - by rewrite lookup_insert_eq.
      - by rewrite lookup_insert_ne. }
    split.
    { intros k Hk. unfold piAt. by rewrite lookup_insert_ne. }
    split; [done|]. intros _. split; [done|].
    intros row es r <-. unfold addTransition. cbn [piMap set_piMap].
    rewrite !piAt_insert_if_absent, insert_insert_if_absent, (float_mul_comm (to_float r)).
    by destruct (negb _).
Qed.

(** *** The expansion of a state *)

(** X5.  A state that passes the skip test and has behaviour is
    expanded: the pass returns, and it has written one matrix row per
    choice, in order, after the entries already there, with the
    successors' registered indices as columns and the rates narrowed
    to single precision as values; the row counter advanced by the
    number of choices and the row group by one; the states registered
    before keep their indices; and the estimate of the expanded state
    is 0. *)
Theorem exploreState_writes_rows (g : Generator) (kappa : ValueType)
    (currentState_ : CompressedState) (currentIndex : StateType)
    (b : State) (mb : MatrixBuilder) :
  currentIndex ∉ tSet b \/ PrimFloat.ltb (piAt (piMap b) currentIndex) kappa = false ->
  behaviour g currentState_ <> [] ->
  exists b' behavior,
    exploreState g kappa currentState_ currentIndex b mb
    = Return tt (b', mkMatrixBuilder
                       (entries mb ++ behaviorEntries (currentRow mb) behavior)
                       (currentRow mb + N.of_nat (length behavior))
                       (currentRowGroup mb + 1))
    /\ Forall2 (Forall2 (resolved (stateToId b'))) (behaviour g currentState_) behavior
    /\ (forall s i, stateToId b !! s = Some i -> stateToId b' !! s = Some i)
    /\ piMap b' !! currentIndex = Some 0%float.
Proof.
  intros Hexpand Hbeh.
  destruct (exploreState_expansion g kappa currentState_ currentIndex b mb Hexpand Hbeh)
    as (b' & behavior & Hrun & Hres & Hpi & _ & _ & (_ & _ & _ & Hsub & _)).
  exists b', behavior. repeat (split_conj; [done|]). split; [|done].
  intros s i Hs. by eapply lookup_weaken.
Qed.

Lemma exploreState_writes_rows_witness :
  exists b' behavior,
    exploreState (exampleGenerator CTMC [stateA]) 0.125%float stateB 1 terminalB
      (mkMatrixBuilder [] 0 0)
    = Return tt (b', mkMatrixBuilder ([] ++ behaviorEntries 0 behavior)
                       (0 + N.of_nat (length behavior)) (0 + 1))
    /\ Forall2 (Forall2 (resolved (stateToId b'))) [[(stateA, 1%float)]] behavior
    /\ (forall s i, stateToId terminalB !! s = Some i -> stateToId b' !! s = Some i)
    /\ piMap b' !! 1 = Some 0%float.
Proof.
  apply (exploreState_writes_rows (exampleGenerator CTMC [stateA]) 0.125%float stateB 1
           terminalB (mkMatrixBuilder [] 0 0)).
  - right. vm_compute. reflexivity.
  - vm_compute. discriminate.
Defined.

(** X6.  The bookkeeping of an expansion: [tSet] and [stateMap] are
    as they were; the expanded state leaves [tMap] exactly when its
    estimate was not 0; and [exploredStates] gains every column
    written, whatever [stateMap] holds (the test before the insertion
    changes nothing). *)
Theorem exploreState_bookkeeping (g : Generator) (kappa : ValueType)
    (currentState_ : CompressedState) (currentIndex : StateType)
    (b : State) (mb : MatrixBuilder) :
  currentIndex ∉ tSet b \/ PrimFloat.ltb (piAt (piMap b) currentIndex) kappa = false ->
  behaviour g currentState_ <> [] ->
  exists b' behavior,
    exploreState g kappa currentState_ currentIndex b mb
    = Return tt (b', mkMatrixBuilder
                       (entries mb ++ behaviorEntries (currentRow mb) behavior)
                       (currentRow mb + N.of_nat (length behavior))
                       (currentRowGroup mb + 1))
    /\ tSet b' = tSet b
    /\ stateMap b' = stateMap b
    /\ tMap b' = (if PrimFloat.eqb (piAt (piMap b) currentIndex) 0%float
                  then tMap b else tMap b ∖ {[currentIndex]})
    /\ exploredStates b' = exploredStates b ∪ successorIds behavior.
Proof.
  intros Hexpand Hbeh.
  destruct (exploreState_expansion g kappa currentState_ currentIndex b mb Hexpand Hbeh)
    as (b' & behavior & Hrun & _ & _ & Htm & Hex & (_ & Ht & Hsm & _)).
  exists b', behavior. done.
Qed.

Lemma exploreState_bookkeeping_witness :
  exists b' behavior,
    exploreState (exampleGenerator CTMC [stateA]) 0.125%float stateB 1 terminalB
      (mkMatrixBuilder [] 0 0)
    = Return tt (b', mkMatrixBuilder ([] ++ behaviorEntries 0 behavior)
                       (0 + N.of_nat (length behavior)) (0 + 1))
    /\ tSet b' = {[1]}
    /\ stateMap b' = ∅
    /\ tMap b' = (if PrimFloat.eqb (piAt (piMap terminalB) 1) 0%float
                  then tMap terminalB else tMap terminalB ∖ {[1]})
    /\ exploredStates b' = ∅ ∪ successorIds behavior.
Proof.
  apply (exploreState_bookkeeping (exampleGenerator CTMC [stateA]) 0.125%float stateB 1
           terminalB (mkMatrixBuilder [] 0 0)).
  - right. vm_compute. reflexivity.
  - vm_compute. discriminate.
Defined.


(** *** Termination of the exploration *)

Lemma registeredWithin_size U b :
  registeredWithin U b -> (size (stateToId b) <= size U)%nat.
Proof.
  intros (Hdom & _). rewrite <- size_dom. by apply subseteq_size.
Qed.

Lemma getOrAddStateIndex_passes U state b :
  N.of_nat (size U) < StateType_modulus ->
  state ∈ U -> registeredWithin U b ->
  registeredWithin U (getOrAddStateIndex state b).2
  /\ (passesLeft U (getOrAddStateIndex state b).2 <= passesLeft U b)%nat.
Proof.
  intros Hsize Hstate Hinv.
  pose proof (registeredWithin_size U b Hinv) as Hle.
  destruct Hinv as (Hdom & Hids & Hqueue).
  unfold getOrAddStateIndex, getNumberOfStates.
  rewrite BuilderTheory.to_StateType_small by lia.
  unfold findOrAdd. destruct (stateToId b !! state) as [id|] eqn:Hlook.
  - pose proof (Hids _ _ Hlook) as Hlt.
    destruct (N.eqb_spec id (N.of_nat (size (stateToId b)))) as [->|_]; [lia|].
    cbn. split; [|done]. unfold passesLeft, registeredWithin; cbn. done.
  - rewrite N.eqb_refl.
    set (m := <[state := N.of_nat (size (stateToId b))]> (stateToId b)).
    assert (Hm : size m = S (size (stateToId b))) by (by apply map_size_insert_None).
    assert (Hdomm : dom m ⊆ U).
    { subst m. rewrite dom_insert. clear -Hdom Hstate. set_solver. }
    assert (Hlt : (size m <= size U)%nat).
    { rewrite <- size_dom. by apply subseteq_size. }
    assert (Hidsm : forall s id, m !! s = Some id -> id < N.of_nat (size m)).
    { intros s id Hs. rewrite Hm. subst m.
      destruct (decide (state = s)) as [->|Hne].
      - rewrite lookup_insert_eq in Hs. injection Hs as <-. lia.
      - rewrite lookup_insert_ne in Hs by done. specialize (Hids _ _ Hs). lia. }
    pose proof (shouldEnqueue_frame (N.of_nat (size (stateToId b))) (set_stateToId m b))
      as (_ & Hq & Hid).
    destruct (shouldEnqueue _ _) as [[] b2]; cbn [fst snd] in *;
      unfold passesLeft, registeredWithin;
      cbn [stateToId statesToExplore set_statesToExplore set_stateToId] in *;
      rewrite ?Hid, ?Hq, ?length_app; cbn [length].
    + split; [|lia]. split; [done|]. split; [done|].
      apply Forall_app. split; [done|]. by constructor.
    + split; [|lia]. done.
Qed.

Lemma expandChoice_passes U c : forall b,
  N.of_nat (size U) < StateType_modulus ->
  Forall (fun p : list bool * float => p.1 ∈ U) c -> registeredWithin U b ->
  registeredWithin U (expandChoice getOrAddStateIndex c b).2
  /\ (passesLeft U (expandChoice getOrAddStateIndex c b).2 <= passesLeft U b)%nat.
Proof.
  induction c as [|[s' r] c IH]; intros b Hsize Hc Hinv; [done|].
  inversion Hc as [|? ? Hs' Hc']; subst. cbn [fst] in Hs'.
  cbn [expandChoice].
  destruct (getOrAddStateIndex_passes U s' b Hsize Hs' Hinv) as [Hinv1 Hle1].
  destruct (getOrAddStateIndex s' b) as [id b1]. cbn [snd] in *.
  destruct (IH b1 Hsize Hc' Hinv1) as [Hinv2 Hle2].
  destruct (expandChoice getOrAddStateIndex c b1) as [rest b2]. cbn [snd] in *.
  split; [done|lia].
Qed.

Lemma expandChoices_passes U cs : forall b,
  N.of_nat (size U) < StateType_modulus ->
  Forall (Forall (fun p : list bool * float => p.1 ∈ U)) cs -> registeredWithin U b ->
  registeredWithin U (expandChoices getOrAddStateIndex cs b).2
  /\ (passesLeft U (expandChoices getOrAddStateIndex cs b).2 <= passesLeft U b)%nat.
Proof.
  induction cs as [|c cs IH]; intros b Hsize Hcs Hinv; [done|].
  inversion Hcs as [|? ? Hc Hcs']; subst.
  cbn [expandChoices].
  destruct (expandChoice_passes U c b Hsize Hc Hinv) as [Hinv1 Hle1].
  destruct (expandChoice getOrAddStateIndex c b) as [c1 b1]. cbn [snd] in *.
  destruct (IH b1 Hsize Hcs' Hinv1) as [Hinv2 Hle2].
  destruct (expandChoices getOrAddStateIndex cs b1) as [rest b2]. cbn [snd] in *.
  split; [done|lia].
Qed.

Lemma exploreState_passes U g kappa currentState_ currentIndex b mb :
  N.of_nat (size U) < StateType_modulus ->
  closedUnder g U -> currentState_ ∈ U -> registeredWithin U b ->
  registeredWithin U (finalState (exploreState g kappa currentState_ currentIndex b mb)).1
  /\ (passesLeft U (finalState (exploreState g kappa currentState_ currentIndex b mb)).1
      <= passesLeft U b)%nat.
Proof.
  intros Hsize Hclosed Hcs Hinv. unfold exploreState.
  set (b1 := if N.eqb (currentIndex mod 100000) 0 then _ else b).
  set (b2 := set_piMap (piMap_insert_if_absent currentIndex (piMap b1)) b1).
  assert (Hb2 : stateToId b2 = stateToId b /\ statesToExplore b2 = statesToExplore b).
  { subst b2 b1. by destruct (N.eqb _ _). }
  destruct Hb2 as [Hid2 Hq2].
  destruct (_ && _).
  { cbn [finalState fst]. unfold registeredWithin, passesLeft. by rewrite Hid2, Hq2. }
  set (b3 := log (OracleExpand currentState_) (log (OracleLoad currentState_) b2)).
  assert (Hinv3 : registeredWithin U b3).
  { unfold registeredWithin. cbn [stateToId statesToExplore b3 log]. by rewrite Hid2, Hq2. }
  assert (Hm3 : passesLeft U b3 = passesLeft U b).
  { unfold passesLeft. cbn [stateToId statesToExplore b3 log]. by rewrite Hid2, Hq2. }
  destruct (expandChoices_passes U (behaviour g currentState_) b3 Hsize (Hclosed _ Hcs) Hinv3)
    as [Hinv4 Hle4].
  destruct (expandChoices getOrAddStateIndex (behaviour g currentState_) b3) as [behavior b4].
  cbn [snd] in *.
  destruct behavior as [|choice rest].
  { cbn [finalState fst]. split; [done|lia]. }
  set (b5 := if _ && _ then set_tMap (tMap b4 ∖ {[currentIndex]}) b4 else b4).
  assert (Hb5 : stateToId b5 = stateToId b4 /\ statesToExplore b5 = statesToExplore b4).
  { subst b5. by destruct (_ && _). }
  destruct Hb5 as [Hid5 Hq5].
  pose proof (addChoices_frame currentIndex (choice :: rest) b5 mb) as Hf6.
  destruct (addChoices currentIndex (choice :: rest) b5 mb) as [b6 mb'].
  cbn [fst snd] in *. unfold expansionFrame in Hf6.
  injection Hf6 as Hid6 _ _ _ _ Hq6 _ _.
  cbn [finalState fst]. unfold registeredWithin, passesLeft in *.
  cbn [stateToId statesToExplore set_piMap].
  rewrite Hid6, Hq6, Hid5, Hq5. split; [done|lia].
Qed.

(** X7.  The exploration loop terminates on a finite model.  When
    the successors of the states of a set [U] are in [U], [U] has
    fewer than [2^32] states, the registered and the queued states are
    in [U] and every index is below the number of registered states,
    then the loop ends within as many passes as there are queued states
    and states of [U] not yet registered; when it returns, the queue is
    empty. *)
Theorem explore_terminates (U : gset (list bool)) (g : Generator) (kappa : ValueType)
    (fuel : nat) :
  N.of_nat (size U) < StateType_modulus ->
  closedUnder g U ->
  forall (b : State) (mb : MatrixBuilder),
    registeredWithin U b ->
    (passesLeft U b <= fuel)%nat ->
    exists o, explore fuel g kappa b mb = Some o
              /\ match o with
                 | Return _ (b', _) => statesToExplore b' = []
                 | _ => True
                 end.
Proof.
  intros Hsize Hclosed.
  induction fuel as [|fuel IH]; intros b mb Hinv Hfuel; cbn [explore].
  - destruct (statesToExplore b) as [|[cs idx] queue] eqn:Hq.
    + eexists. split; [reflexivity|done].
    + unfold passesLeft in Hfuel. rewrite Hq in Hfuel. cbn in Hfuel. lia.
  - destruct (statesToExplore b) as [|[cs idx] queue] eqn:Hq.
    { eexists. split; [reflexivity|done]. }
    set (b1 := set_statesToExplore queue (set_currentState idx b)).
    assert (Hcs : cs ∈ U).
    { destruct Hinv as (_ & _ & Hqueue). rewrite Hq in Hqueue.
      by inversion Hqueue. }
    assert (Hinv1 : registeredWithin U b1).
    { destruct Hinv as (Hdom & Hids & Hqueue). unfold registeredWithin.
      cbn [b1 stateToId statesToExplore set_statesToExplore set_currentState].
      split; [done|]. split; [done|]. rewrite Hq in Hqueue. by inversion Hqueue. }
    assert (Hm1 : (passesLeft U b1 <= fuel)%nat).
    { unfold passesLeft in *.
      cbn [b1 stateToId statesToExplore set_statesToExplore set_currentState].
      rewrite Hq in Hfuel. cbn [length] in Hfuel. lia. }
    destruct (exploreState_passes U g kappa cs idx b1 mb Hsize Hclosed Hcs Hinv1)
      as [Hinv2 Hle2].
    destruct (exploreState g kappa cs idx b1 mb) as [[] [b2 mb2]|text [b2 mb2]|what [b2 mb2]];
      cbn [finalState fst] in *.
    + apply IH; [done|lia].
    + eexists. split; [reflexivity|done].
    + eexists. split; [reflexivity|done].
Qed.

Lemma explore_terminates_witness :
  exists o, explore 3 (exampleGenerator CTMC [stateA]) 0.5%float queuedA (mkMatrixBuilder [] 0 0)
            = Some o
            /\ match o with
               | Return _ (b', _) => statesToExplore b' = []
               | _ => True
               end.
Proof.
  apply (explore_terminates exampleUniverse).
  - vm_compute. reflexivity.
  - unfold closedUnder. apply (bool_decide_unpack _). vm_compute. exact I.
  - unfold registeredWithin. split_conj; [|split_conj].
    + apply (bool_decide_unpack _). vm_compute. exact I.
    + apply (proj1 (map_Forall_lookup
                      (fun (_ : list bool) (id : N) => id < N.of_nat (size (stateToId queuedA)))
                      (stateToId queuedA))).
      apply (bool_decide_unpack _). vm_compute. exact I.
    + apply (bool_decide_unpack _). vm_compute. exact I.
  - vm_compute. lia.
Defined.

(** *** The rows of the matrix *)

Lemma behaviorEntries_rows behavior : forall row,
  Forall (fun e => row <= rowIndex e < row + N.of_nat (length behavior))
    (behaviorEntries row behavior)
  /\ StronglySorted N.le (map rowIndex (behaviorEntries row behavior)).
Proof.
  induction behavior as [|choice rest IH]; intros row; cbn [behaviorEntries length].
  - split; constructor.
  - destruct (IH (row + 1)) as [Hrange Hsorted].
    assert (Hrow : Forall (fun e : N * N * float => rowIndex e = row)
                     (map (fun p : N * float => (row, p.1, to_float p.2)) choice)).
    { apply Forall_map. by apply Forall_true. }
    split.
    + apply Forall_app. split.
      * eapply Forall_impl; [exact Hrow|]. cbn. intros e ->. lia.
      * eapply Forall_impl; [exact Hrange|]. cbn. intros e He. lia.
    + rewrite map_app. apply StronglySorted_le_app; [|done|].
      * apply (StronglySorted_constant row). by apply Forall_map.
      * intros x1 x2 H1 H2.
        apply list_elem_of_fmap in H1 as (e1 & -> & H1), H2 as (e2 & -> & H2).
        rewrite Forall_forall in Hrow, Hrange.
        rewrite (Hrow e1) by done. specialize (Hrange e2 H2). cbn in Hrange. lia.
Qed.

Lemma rowsInOrder_expansion mb behavior rowGroup :
  rowsInOrder mb ->
  rowsInOrder (mkMatrixBuilder (entries mb ++ behaviorEntries (currentRow mb) behavior)
                 (currentRow mb + N.of_nat (length behavior)) rowGroup).
Proof.
  intros [Hsorted Hbelow]. destruct (behaviorEntries_rows behavior (currentRow mb))
    as [Hrange Hnew].
  split; cbn [entries currentRow].
  - rewrite map_app. apply StronglySorted_le_app; [done|done|].
    intros x1 x2 H1 H2.
    apply list_elem_of_fmap in H1 as (e1 & -> & H1), H2 as (e2 & -> & H2).
    rewrite Forall_forall in Hbelow, Hrange.
    specialize (Hbelow e1 H1). specialize (Hrange e2 H2). cbn in *. lia.
  - apply Forall_app. split.
    + eapply Forall_impl; [exact Hbelow|]. cbn. intros e He. lia.
    + eapply Forall_impl; [exact Hrange|]. cbn. intros e He. lia.
Qed.

Lemma exploreState_asks_once g kappa currentState_ currentIndex b mb :
  currentIndex ∉ tSet b \/ PrimFloat.ltb (piAt (piMap b) currentIndex) kappa = false ->
  oracleCalls (trace (finalState (exploreState g kappa currentState_ currentIndex b mb)).1)
  = oracleCalls (trace b) ++ [currentState_].
Proof.
  intros Hexpand. rewrite exploreState_not_skipped by done. cbn zeta.
  pose proof (exploreState_prepared currentIndex b) as Hprep. cbn zeta in Hprep.
  destruct Hprep as (_ & _ & Hcalls & _).
  match goal with |- context [log (OracleLoad currentState_) ?b2] =>
    pose proof (expansion_asks_oracle g currentState_ currentIndex b2 mb) as [H _] end.
  cbn zeta in H. rewrite <- Hcalls. exact H.
Qed.

Lemma exploreState_rows_expanded g kappa currentState_ currentIndex b mb :
  rowsInOrder mb ->
  currentIndex ∉ tSet b \/ PrimFloat.ltb (piAt (piMap b) currentIndex) kappa = false ->
  rowsInOrder (finalState (exploreState g kappa currentState_ currentIndex b mb)).2
  /\ entries mb `prefix_of`
       entries (finalState (exploreState g kappa currentState_ currentIndex b mb)).2
  /\ currentRow mb
     <= currentRow (finalState (exploreState g kappa currentState_ currentIndex b mb)).2
  /\ (forall b' mb',
        exploreState g kappa currentState_ currentIndex b mb = Return tt (b', mb') ->
        counted b mb b' mb').
Proof.
  intros Hrows Hexpand.
  pose proof (exploreState_asks_once g kappa currentState_ currentIndex b mb Hexpand) as Hasked.
  destruct (behaviour g currentState_) as [|choice rest] eqn:Hbeh.
  - rewrite exploreState_not_skipped by done. rewrite Hbeh. cbn.
    split; [done|]. split; [done|]. split; [lia|]. discriminate.
  - destruct (exploreState_expansion g kappa currentState_ currentIndex b mb Hexpand)
      as (b' & behavior & Hrun & _); [by rewrite Hbeh|].
    rewrite Hrun in Hasked |- *. cbn [finalState fst snd] in *.
    split; [by apply rowsInOrder_expansion|]. cbn [entries currentRow].
    split; [by apply prefix_app_r|]. split; [lia|].
    intros b'' mb'' [= <- <-]. unfold counted. cbn [currentRowGroup].
    rewrite Hasked, length_app. cbn [length]. lia.
Qed.

Lemma exploreState_rows g kappa currentState_ currentIndex b mb :
  rowsInOrder mb ->
  rowsInOrder (finalState (exploreState g kappa currentState_ currentIndex b mb)).2
  /\ entries mb `prefix_of`
       entries (finalState (exploreState g kappa currentState_ currentIndex b mb)).2
  /\ currentRow mb
     <= currentRow (finalState (exploreState g kappa currentState_ currentIndex b mb)).2
  /\ (forall b' mb',
        exploreState g kappa currentState_ currentIndex b mb = Return tt (b', mb') ->
        counted b mb b' mb').
Proof.
  intros Hrows.
  destruct (decide (currentIndex ∈ tSet b)) as [Hin|Hnot];
    [destruct (PrimFloat.ltb (piAt (piMap b) currentIndex) kappa) eqn:Hlt|].
  - (* skipped *)
    pose proof (exploreState_prepared currentIndex b) as Hprep. cbn zeta in Hprep.
    unfold exploreState.
    set (b1 := if N.eqb (currentIndex mod 100000) 0 then _ else b) in *.
    set (b2 := set_piMap (piMap_insert_if_absent currentIndex (piMap b1)) b1) in *.
    destruct Hprep as (Ht & _ & Hcalls & Hpi).
    unfold set_contains. rewrite Ht, Hpi, Hlt, bool_decide_eq_true_2 by done.
    cbn [andb finalState snd]. split; [done|]. split; [done|]. split; [lia|].
    intros b' mb' [= <- <-]. unfold counted. by rewrite Hcalls.
  - apply exploreState_rows_expanded; [done|by right].
  - apply exploreState_rows_expanded; [done|by left].
Qed.

(** X8.  The first explorer hands the matrix builder its entries in
    ascending row order: when the entries so far are in order and
    below the row counter, they still are however the exploration
    ends; the entries already written stay as a prefix, the row
    counter never decreases, and when the exploration returns it has
    written as many row groups as states were expanded. *)
Theorem explore_writes_rows_in_order (g : Generator) (kappa : ValueType) (fuel : nat) :
  forall (b : State) (mb : MatrixBuilder) (o : Outcome (State * MatrixBuilder) unit),
    rowsInOrder mb ->
    explore fuel g kappa b mb = Some o ->
    rowsInOrder (finalState o).2
    /\ entries mb `prefix_of` entries (finalState o).2
    /\ currentRow mb <= currentRow (finalState o).2
    /\ (forall b' mb', o = Return tt (b', mb') -> counted b mb b' mb').
Proof.
  induction fuel as [|fuel IH]; intros b mb o Hrows Hrun; cbn [explore] in Hrun.
  - destruct (statesToExplore b) as [|[cs idx] queue]; [|discriminate].
    injection Hrun as <-. cbn [finalState snd]. split; [done|]. split; [done|].
    split; [lia|]. by intros b' mb' [= <- <-].
  - destruct (statesToExplore b) as [|[cs idx] queue].
    { injection Hrun as <-. cbn [finalState snd]. split; [done|]. split; [done|].
      split; [lia|]. by intros b' mb' [= <- <-]. }
    set (b1 := set_statesToExplore queue (set_currentState idx b)) in *.
    destruct (exploreState_rows g kappa cs idx b1 mb Hrows) as (Hrows2 & Hpre2 & Hle2 & Hcount2).
    destruct (exploreState g kappa cs idx b1 mb) as [[] [b2 mb2]|text [b2 mb2]|what [b2 mb2]];
      cbn [finalState snd] in *.
    + destruct (IH b2 mb2 o Hrows2 Hrun) as (Hrows3 & Hpre3 & Hle3 & Hcount3).
      split; [done|]. split; [by etrans|]. split; [lia|].
      intros b' mb' Ho. specialize (Hcount2 b2 mb2 eq_refl). specialize (Hcount3 b' mb' Ho).
      unfold counted in *. cbn [trace b1 set_statesToExplore set_currentState] in Hcount2. lia.
    + injection Hrun as <-. cbn [finalState snd]. split; [done|]. split; [done|].
      split; [done|]. discriminate.
    + injection Hrun as <-. cbn [finalState snd]. split; [done|]. split; [done|].
      split; [done|]. discriminate.
Qed.

Lemma explore_writes_rows_in_order_witness :
  exists o,
    explore 3 (exampleGenerator CTMC [stateA]) 0.5%float queuedA (mkMatrixBuilder [] 0 0)
    = Some o
    /\ rowsInOrder (finalState o).2
    /\ entries (finalState o).2
       = [(0, 1, to_float 0.1%float); (0, 2, to_float 0.9%float);
          (1, 0, 1%float); (2, 0, 1%float)].
Proof.
  assert (Hempty : rowsInOrder (mkMatrixBuilder [] 0 0)) by (split; constructor).
  assert (Hrun : explore 3 (exampleGenerator CTMC [stateA]) 0.5%float queuedA
                   (mkMatrixBuilder [] 0 0) = Some _) by (vm_compute; reflexivity).
  eexists. split; [exact Hrun|].
  destruct (explore_writes_rows_in_order _ _ _ _ _ _ Hempty Hrun) as (Hrows & _).
  split; [exact Hrows|]. vm_compute. reflexivity.
Defined.

End LegacyExtra.

(** ** More on the base class *)
Module BuilderExtra.
Import Builder BuilderTheory.

(** *** Dense ids *)

Lemma set_stateToId_same b : set_stateToId (stateToId b) b = b.
Proof. by destruct b. Qed.

Lemma set_transitionsToAdd_same b : set_transitionsToAdd (transitionsToAdd b) b = b.
Proof. by destruct b. Qed.

Lemma set_transitionsToAdd_trans b2 b1 b :
  b2 = set_transitionsToAdd (transitionsToAdd b2) b1 ->
  b1 = set_transitionsToAdd (transitionsToAdd b1) b ->
  b2 = set_transitionsToAdd (transitionsToAdd b2) b.
Proof. intros H2 H1. rewrite H2, H1. done. Qed.

Lemma getOrAddStateIndex_dense state b :
  denseIds (stateToId b) ->
  N.of_nat (size (stateToId b)) < StateType_modulus ->
  denseIds (stateToId (getOrAddStateIndex state b).2)
  /\ stateToId b ⊆ stateToId (getOrAddStateIndex state b).2
  /\ stateToId (getOrAddStateIndex state b).2 !! state = Some (getOrAddStateIndex state b).1
  /\ dom (stateToId (getOrAddStateIndex state b).2) = dom (stateToId b) ∪ {[state]}
  /\ (size (stateToId (getOrAddStateIndex state b).2) <= S (size (stateToId b)))%nat
  /\ (getOrAddStateIndex state b).2 = set_stateToId (stateToId (getOrAddStateIndex state b).2) b.
Proof.
  intros [Hlt Hinj] Hsize. unfold getOrAddStateIndex, getNumberOfStates.
  rewrite to_StateType_small by done. unfold findOrAdd.
  destruct (stateToId b !! state) as [id|] eqn:Hlook; cbn [fst snd stateToId set_stateToId].
  - split; [done|]. split; [done|]. split; [done|]. split.
    { apply elem_of_dom_2 in Hlook. clear -Hlook. set_solver. }
    split; [lia|]. done.
  - split.
    { split.
      - intros s id Hs. rewrite map_size_insert_None by done.
        destruct (decide (state = s)) as [->|Hne].
        + rewrite lookup_insert_eq in Hs. injection Hs as <-. lia.
        + rewrite lookup_insert_ne in Hs by done. specialize (Hlt _ _ Hs). lia.
      - intros s1 s2 id H1 H2.
        destruct (decide (state = s1)) as [E1|Hne1], (decide (state = s2)) as [E2|Hne2].
        + congruence.
        + subst s1. rewrite lookup_insert_eq in H1. rewrite lookup_insert_ne in H2 by done.
          injection H1 as <-. specialize (Hlt _ _ H2). lia.
        + subst s2. rewrite lookup_insert_eq in H2. rewrite lookup_insert_ne in H1 by done.
          injection H2 as <-. specialize (Hlt _ _ H1). lia.
        + rewrite lookup_insert_ne in H1, H2 by done. by eauto. }
    split; [by apply insert_subseteq|]. split; [apply lookup_insert_eq|].
    split; [rewrite dom_insert_L; clear; set_solver|].
    rewrite map_size_insert_None by done. done.
Qed.

Lemma registerStates_dense l : forall b,
  denseIds (stateToId b) ->
  N.of_nat (size (stateToId b) + length l) < StateType_modulus ->
  denseIds (stateToId (registerStates getOrAddStateIndex l b).2)
  /\ stateToId b ⊆ stateToId (registerStates getOrAddStateIndex l b).2
  /\ Forall2 (fun s id => stateToId (registerStates getOrAddStateIndex l b).2 !! s = Some id)
       l (registerStates getOrAddStateIndex l b).1
  /\ dom (stateToId (registerStates getOrAddStateIndex l b).2)
     = dom (stateToId b) ∪ list_to_set l
  /\ (size (stateToId (registerStates getOrAddStateIndex l b).2)
      <= size (stateToId b) + length l)%nat
  /\ (registerStates getOrAddStateIndex l b).2
     = set_stateToId (stateToId (registerStates getOrAddStateIndex l b).2) b.
Proof.
  induction l as [|s l IH]; intros b Hdense Hsize.
  - cbn. split; [done|]. split; [done|]. split; [constructor|].
    split; [clear; set_solver|]. split; [lia|]. by rewrite set_stateToId_same.
  - cbn [registerStates length] in *.
    destruct (getOrAddStateIndex_dense s b Hdense) as (Hd1 & Hsub1 & Hreg1 & Hdom1 & Hsz1 & Hb1);
      [lia|].
    destruct (getOrAddStateIndex s b) as [id b1]. cbn [fst snd] in *.
    destruct (IH b1 Hd1) as (Hd2 & Hsub2 & Hreg2 & Hdom2 & Hsz2 & Hb2); [lia|].
    destruct (registerStates getOrAddStateIndex l b1) as [rest b2]. cbn [fst snd] in *.
    split; [done|]. split; [by etrans|]. split.
    { constructor; [|done]. by eapply lookup_weaken. }
    split; [rewrite Hdom2, Hdom1; clear; set_solver|]. split; [lia|].
    rewrite Hb2. rewrite Hb1 at 1. done.
Qed.

(** X9.  [getOrAddStateIndex] of the base class keeps the indices
    dense: when every index is below the number of states and no two
    states share one, and the count stays below [2^32], the same holds
    after registering a list of states; the states registered before
    keep their indices, exactly the listed states are added, nothing
    but the storage changes, and [getStateIndexOrAbsorbing] then
    answers for each listed state the index [getOrAddStateIndex]
    returned. *)
Theorem registered_ids_stay_dense (l : list CompressedState) (b : State) :
  denseIds (stateToId b) ->
  N.of_nat (size (stateToId b) + length l) < StateType_modulus ->
  let ids := (registerStates getOrAddStateIndex l b).1 in
  let b' := (registerStates getOrAddStateIndex l b).2 in
  denseIds (stateToId b')
  /\ stateToId b ⊆ stateToId b'
  /\ Forall2 (fun s id => stateToId b' !! s = Some id) l ids
  /\ dom (stateToId b') = dom (stateToId b) ∪ list_to_set l
  /\ b' = set_stateToId (stateToId b') b
  /\ registerStates getStateIndexOrAbsorbing l b' = (ids, b').
Proof.
  intros Hdense Hsize. cbn zeta.
  destruct (registerStates_dense l b Hdense Hsize) as (Hd & Hsub & Hreg & Hdom & _ & Hb).
  repeat (split_conj; [done|]).
  rewrite registerStates_terminal. f_equal.
  set (m := stateToId (registerStates getOrAddStateIndex l b).2) in *. clearbody m.
  revert Hreg. generalize (registerStates getOrAddStateIndex l b).1. clear.
  intros ids Hreg. induction Hreg as [|s id l' ids' Hs _ IH]; [done|].
  cbn. rewrite IH. unfold idOrAbsorbing. by rewrite Hs.
Qed.

Lemma registered_ids_stay_dense_witness :
  let l := [stateA; stateB; stateA] in
  let b' := (registerStates getOrAddStateIndex l initial).2 in
  denseIds (stateToId b')
  /\ (registerStates getOrAddStateIndex l initial).1 = [0; 1; 0]
  /\ registerStates getStateIndexOrAbsorbing l b' = ([0; 1; 0], b').
Proof.
  cbn zeta.
  assert (Hdense : denseIds (stateToId initial)).
  { split; [intros s id Hs|intros s1 s2 id Hs _];
      unfold initial in Hs; cbn [stateToId] in Hs; by rewrite lookup_empty in Hs. }
  assert (Hsize : N.of_nat (size (stateToId initial) + length [stateA; stateB; stateA])
                  < StateType_modulus) by (vm_compute; reflexivity).
  destruct (registered_ids_stay_dense [stateA; stateB; stateA] initial Hdense Hsize)
    as (Hd & _ & _ & _ & _ & Hround).
  split; [exact Hd|]. split; [vm_compute; reflexivity|]. exact Hround.
Defined.


(** *** The buffer and the flush *)

Lemma rowOf_flush r b :
  rowOf r (flushToTransitionMatrix b [])
  = match transitionsToAdd b !! N.to_nat r with
    | Some row_ => rowEntries r row_
    | None => []
    end.
Proof.
  unfold flushToTransitionMatrix. rewrite flushRows_eq. cbn [app].
  rewrite rowOf_allRowEntries. destruct (decide (0 <= r)); [|lia].
  by rewrite N.sub_0_r.
Qed.

Lemma rowEntries_snoc r l t :
  rowEntries r (l ++ [t]) = map (fun tInfo => (r, to tInfo, transition tInfo)) (l ++ [t]).
Proof. unfold rowEntries. by destruct l. Qed.

Lemma createTransition_length from to_ p b :
  length (transitionsToAdd (createTransition from to_ p b))
  = Nat.max (length (transitionsToAdd b)) (S (N.to_nat (N.max from to_))).
Proof.
  unfold createTransition. cbn [transitionsToAdd set_transitionsToAdd].
  rewrite length_alter, length_app, length_replicate. lia.
Qed.

Lemma buffered_in_range b r :
  (N.to_nat r < length (transitionsToAdd b))%nat ->
  transitionsToAdd b !! N.to_nat r = Some (buffered b r).
Proof.
  intros Hlt. unfold buffered.
  destruct (lookup_lt_is_Some_2 _ _ Hlt) as [row_ ->]. done.
Qed.

(** X10.  [createTransition] changes the buffer only: it grows the
    buffer to hold a row for the source and a row for the destination,
    appends the transition to the row of the source and leaves the
    other rows.  A flush then writes for the source its buffered
    transitions in order, the new one last, and for a destination
    without buffered transitions a self-loop of rate 1. *)
Theorem createTransition_makes_rows (from to_ : StateType) (p : ValueType) (b : State) :
  let b' := createTransition from to_ p b in
  b' = set_transitionsToAdd (transitionsToAdd b') b
  /\ length (transitionsToAdd b')
     = Nat.max (length (transitionsToAdd b)) (S (N.to_nat (N.max from to_)))
  /\ buffered b' from = buffered b from ++ [mkTransitionInfo to_ p]
  /\ (forall r, r <> from -> buffered b' r = buffered b r)
  /\ rowOf from (flushToTransitionMatrix b' [])
     = map (fun tInfo => (from, to tInfo, transition tInfo)) (buffered b from)
       ++ [(from, to_, p)]
  /\ (to_ <> from -> buffered b to_ = [] ->
      rowOf to_ (flushToTransitionMatrix b' []) = [(to_, to_, 1%float)]).
Proof.
  cbn zeta. split; [done|]. split; [apply createTransition_length|].
  pose proof (createTransition_buffered from to_ p b) as Hbuf.
  pose proof (createTransition_length from to_ p b) as Hlen.
  split; [rewrite Hbuf; by destruct (decide (from = from))|].
  split; [intros r Hr; rewrite Hbuf; by destruct (decide (r = from))|].
  split.
  - rewrite rowOf_flush, buffered_in_range by lia.
    rewrite Hbuf. destruct (decide (from = from)); [|done].
    by rewrite rowEntries_snoc, map_app.
  - intros Hne Hempty. rewrite rowOf_flush, buffered_in_range by lia.
    rewrite Hbuf. destruct (decide (to_ = from)); [done|]. by rewrite Hempty.
Qed.

Lemma rowEntries_rowIndex r row_ : Forall (fun e => rowIndex e = r) (rowEntries r row_).
Proof.
  unfold rowEntries. destruct row_ as [|t row_]; [by repeat constructor|].
  apply Forall_map. by apply Forall_true.
Qed.

Lemma rowEntries_nonempty r row_ : rowEntries r row_ <> [].
Proof. unfold rowEntries. by destruct row_. Qed.

Lemma allRowEntries_ascending rows : forall start,
  Forall (fun e => start <= rowIndex e) (allRowEntries start rows)
  /\ StronglySorted N.le (map rowIndex (allRowEntries start rows)).
Proof.
  induction rows as [|row_ rows IH]; intros start; cbn [allRowEntries].
  - split; constructor.
  - destruct (IH (start + 1)) as [Hge Hsorted].
    pose proof (rowEntries_rowIndex start row_) as Hrow.
    split.
    + apply Forall_app. split.
      * eapply Forall_impl; [exact Hrow|]. cbn. intros e ->. lia.
      * eapply Forall_impl; [exact Hge|]. cbn. intros e He. lia.
    + rewrite map_app. apply StronglySorted_le_app; [|done|].
      * apply (StronglySorted_constant start). by apply Forall_map.
      * intros x1 x2 H1 H2.
        apply list_elem_of_fmap in H1 as (e1 & -> & H1), H2 as (e2 & -> & H2).
        rewrite Forall_forall in Hrow, Hge.
        rewrite (Hrow e1) by done. specialize (Hge e2 H2). cbn in Hge. lia.
Qed.

(** X11.  The flush writes its entries in ascending row order, writes
    at least one entry for every row of the buffer and none for any
    other row, and appends to what the matrix builder already holds:
    the buffer is not cleared, so a second flush writes every entry
    again. *)
Theorem flush_rows_ascending (b : State) :
  StronglySorted N.le (map rowIndex (flushToTransitionMatrix b []))
  /\ (forall r, rowOf r (flushToTransitionMatrix b []) <> []
                <-> (N.to_nat r < length (transitionsToAdd b))%nat)
  /\ (forall es, flushToTransitionMatrix b es = es ++ flushToTransitionMatrix b []).
Proof.
  split; [|split].
  - unfold flushToTransitionMatrix. rewrite flushRows_eq. apply allRowEntries_ascending.
  - intros r. rewrite rowOf_flush.
    destruct (transitionsToAdd b !! N.to_nat r) as [row_|] eqn:Hrow.
    + split; [intros _; by eapply lookup_lt_Some|intros _; apply rowEntries_nonempty].
    + split; [done|]. intros Hlt. apply lookup_lt_is_Some_2 in Hlt as [? ?]. congruence.
  - intros es. unfold flushToTransitionMatrix. by rewrite !flushRows_eq.
Qed.

(** *** The absorbing state, again *)

(** X12.  [setUpAbsorbingState] does not check that index 0 is free.
    When the absorbing state is not registered, the set-up registers
    it under index 0 and returns, and a state that already holds
    index 0 keeps it, so that two states share the index.  When the
    absorbing state is registered under another index, the set-up ends
    the process with [Absorbing state should be index 0! Got <index>],
    the storage unchanged. *)
Theorem setUpAbsorbingState_trusts_id_zero (g : Generator) (b : State)
    (a : CompressedState) :
  absorbingWasSetUp b = false -> firstIteration b = true ->
  absorbingFor g = Some a ->
  (stateToId b !! a = None ->
     exists b',
       setUpAbsorbingState g b = Return tt b'
       /\ stateToId b' = <[a := 0]> (stateToId b)
       /\ absorbingState b' = a
       /\ absorbingWasSetUp b' = true
       /\ (forall s, stateToId b !! s = Some 0 -> s <> a /\ stateToId b' !! s = Some 0))
  /\ (forall id, stateToId b !! a = Some id -> id <> 0 ->
        exists b',
          setUpAbsorbingState g b
          = Exit ("Absorbing state should be index 0! Got " +:+ pretty id) b'
          /\ stateToId b' = stateToId b).
Proof.
  intros Hset Hfirst Habs. unfold setUpAbsorbingState, absorbingFor in *.
  rewrite Hset, Hfirst.
  destruct (List.find _ _) as [variable|]; [|discriminate].
  cbn [absorbingState set_absorbingState set_stateRemapping].
  destruct (bool_decide _) eqn:Hbit; [|discriminate]. injection Habs as Ha.
  cbn [negb stateToId absorbingState set_deadlockStateIndices set_absorbingState
       set_stateRemapping].
  rewrite Ha. unfold findOrAdd. split.
  - intros Hnone. rewrite Hnone. cbn [negb N.eqb]. eexists. split; [reflexivity|].
    cbn [stateToId absorbingState absorbingWasSetUp set_absorbingWasSetUp set_stateToId
         set_deadlockStateIndices set_absorbingState set_stateRemapping].
    repeat (split_conj; [done|]).
    intros s Hs. assert (s <> a) by congruence. split; [done|].
    by rewrite lookup_insert_ne.
  - intros id Hid Hne. rewrite Hid. destruct (N.eqb_spec id 0) as [|_]; [done|].
    cbn [negb]. eexists. split; [reflexivity|]. done.
Qed.

Lemma setUpAbsorbingState_trusts_id_zero_witness :
  let g := exampleGenerator CTMC [stateA] in
  let b := (getOrAddStateIndex stateA initial).2 in
  exists b',
    setUpAbsorbingState g b = Return tt b'
    /\ stateToId b' !! stateA = Some 0
    /\ stateToId b' !! absorbingState b' = Some 0
    /\ stateA <> absorbingState b'.
Proof.
  cbn zeta.
  assert (Habs : absorbingFor (exampleGenerator CTMC [stateA])
                 = Some (<[1%nat := true]> (replicate 64 false)))
    by (vm_compute; reflexivity).
  destruct (setUpAbsorbingState_trusts_id_zero (exampleGenerator CTMC [stateA])
              (getOrAddStateIndex stateA initial).2 _ eq_refl eq_refl Habs) as [Hfree _].
  destruct Hfree as (b' & Hrun & Hids & Ha & _ & Hzero); [vm_compute; reflexivity|].
  destruct (Hzero stateA) as [Hne Hs]; [vm_compute; reflexivity|].
  exists b'. split; [exact Hrun|]. split; [exact Hs|].
  rewrite Ha, Hids. split; [apply lookup_insert_eq|exact Hne].
Defined.

(** X13.  A set-up that returned is not repeated: a second call
    returns with the builder as it is.  After a [reset] of a builder
    that is not fresh the set-up runs again: the storage and the
    absorbing state stay, the queue is empty, and index 0 is pushed a
    second time onto [deadlockStateIndices] and [stateRemapping]. *)
Theorem setUpAbsorbingState_twice (g : Generator) (b b' : State) :
  setUpAbsorbingState g b = Return tt b' ->
  setUpAbsorbingState g b' = Return tt b'
  /\ (absorbingWasSetUp b = false -> firstIteration b = true -> fresh b = false ->
      exists b'',
        setUpAbsorbingState g (reset b') = Return tt b''
        /\ stateToId b'' = stateToId b'
        /\ absorbingState b'' = absorbingState b'
        /\ deadlockStateIndices b'' = deadlockStateIndices b ++ [0; 0]
        /\ stateRemapping b'' = stateRemapping b ++ [0; 0]
        /\ statesToExplore b'' = []).
Proof.
  intros Hrun. unfold setUpAbsorbingState in Hrun |- *.
  destruct (absorbingWasSetUp b) eqn:Hset.
  { injection Hrun as <-. rewrite Hset. split; [done|]. discriminate. }
  destruct (firstIteration b) eqn:Hfirst.
  2: { injection Hrun as <-. rewrite Hset, Hfirst. split; [done|]. discriminate. }
  destruct (List.find _ _) as [variable|]; [|discriminate].
  cbn [absorbingState set_absorbingState set_stateRemapping] in Hrun.
  destruct (bool_decide _) eqn:Hbit; cbn [negb] in Hrun; [|discriminate].
  cbn [stateToId absorbingState set_deadlockStateIndices set_absorbingState
       set_stateRemapping] in Hrun.
  destruct (findOrAdd _ 0 (stateToId b)) as [actualIndex m] eqn:Hfind.
  destruct (N.eqb actualIndex 0) eqn:Hzero; cbn [negb] in Hrun; [|discriminate].
  apply N.eqb_eq in Hzero as ->. injection Hrun as <-.
  cbn [absorbingWasSetUp set_absorbingWasSetUp]. split; [done|].
  intros _ _ Hfresh. unfold reset.
  cbn [fresh absorbingWasSetUp firstIteration set_absorbingWasSetUp set_stateToId
       set_deadlockStateIndices set_absorbingState set_stateRemapping set_statesToExplore
       stateRemapping absorbingState deadlockStateIndices stateToId statesToExplore].
  rewrite Hfresh.
  cbn [fresh absorbingWasSetUp firstIteration set_absorbingWasSetUp set_stateToId
       set_deadlockStateIndices set_absorbingState set_stateRemapping set_statesToExplore
       stateRemapping absorbingState deadlockStateIndices stateToId statesToExplore].
  rewrite Hfirst. cbn [negb].
  assert (Hm : m !! <[(bitOffset variable + 1)%nat := true]>
                      (replicate (getTotalBitOffsetRounded (getVariableInformation g) true) false)
               = Some 0).
  { unfold findOrAdd in Hfind. destruct (stateToId b !! _) as [id|] eqn:E.
    - by injection Hfind as -> <-.
    - injection Hfind as <-. apply lookup_insert_eq. }
  unfold findOrAdd. rewrite Hm. cbn [negb N.eqb].
  eexists. split; [reflexivity|].
  cbn [stateToId absorbingState deadlockStateIndices stateRemapping statesToExplore
       set_absorbingWasSetUp set_stateToId set_deadlockStateIndices set_absorbingState
       set_stateRemapping set_statesToExplore].
  rewrite <- !app_assoc. done.
Qed.

Lemma setUpAbsorbingState_twice_witness :
  let g := exampleGenerator CTMC [stateA] in
  let b := mkState ∅ [] [] [] false true false [] [] false [] in
  let b' := finalState (setUpAbsorbingState g b) in
  setUpAbsorbingState g b' = Return tt b'
  /\ exists b'',
       setUpAbsorbingState g (reset b') = Return tt b''
       /\ deadlockStateIndices b'' = [0; 0].
Proof.
  cbn zeta.
  assert (Hrun : setUpAbsorbingState (exampleGenerator CTMC [stateA])
                   (mkState ∅ [] [] [] false true false [] [] false [])
                 = Return tt (finalState (setUpAbsorbingState (exampleGenerator CTMC [stateA])
                                (mkState ∅ [] [] [] false true false [] [] false []))))
    by (vm_compute; reflexivity).
  destruct (setUpAbsorbingState_twice _ _ _ Hrun) as [Hagain Hreset].
  split; [exact Hagain|].
  destruct (Hreset eq_refl eq_refl eq_refl) as (b'' & Hrun2 & _ & _ & Hdead & _).
  exists b''. split; [exact Hrun2|exact Hdead].
Defined.


(** *** Perimeter states, for any callback *)

Lemma fold_connectPair_rows stateId choice : forall b total,
  (fold_left (connectPair stateId) choice (b, total)).1
  = set_transitionsToAdd
      (transitionsToAdd (fold_left (connectPair stateId) choice (b, total)).1) b
  /\ (forall r, r <> stateId ->
        buffered (fold_left (connectPair stateId) choice (b, total)).1 r = buffered b r)
  /\ (length (buffered b stateId)
      <= length (buffered (fold_left (connectPair stateId) choice (b, total)).1 stateId))%nat.
Proof.
  induction choice as [|[first second] choice IH]; intros b total; cbn [fold_left].
  - cbn. by rewrite set_transitionsToAdd_same.
  - destruct (connectPair stateId (b, total) (first, second)) as [b1 total1] eqn:E.
    assert (Hstep : b1 = set_transitionsToAdd (transitionsToAdd b1) b
                    /\ (forall r, r <> stateId -> buffered b1 r = buffered b r)
                    /\ (length (buffered b stateId) <= length (buffered b1 stateId))%nat).
    { unfold connectPair in E. destruct (N.eqb first 0); cbn [negb] in E; injection E as <- <-.
      - by rewrite set_transitionsToAdd_same.
      - split; [done|]. split.
        + intros r Hr. rewrite createTransition_buffered. by destruct (decide (r = stateId)).
        + rewrite createTransition_buffered. destruct (decide (stateId = stateId)); [|done].
          rewrite length_app. lia. }
    destruct Hstep as (Hshape1 & Hother1 & Hlen1).
    destruct (IH b1 total1) as (Hshape & Hother & Hlen).
    split; [by eapply set_transitionsToAdd_trans|]. split.
    + intros r Hr. rewrite Hother by done. by apply Hother1.
    + lia.
Qed.

Lemma connectChoice_rows stateId b flag choice :
  (connectChoice stateId (b, flag) choice).2 = true
  /\ (connectChoice stateId (b, flag) choice).1
     = set_transitionsToAdd (transitionsToAdd (connectChoice stateId (b, flag) choice).1) b
  /\ (forall r, r <> stateId -> buffered (connectChoice stateId (b, flag) choice).1 r = buffered b r)
  /\ (S (length (buffered b stateId))
      <= length (buffered (connectChoice stateId (b, flag) choice).1 stateId))%nat.
Proof.
  unfold connectChoice. cbn [fst].
  destruct (fold_connectPair_rows stateId choice b 0%float) as (Hshape & Hother & Hlen).
  destruct (fold_left (connectPair stateId) choice (b, 0%float)) as [b1 total].
  cbn [fst snd] in *. split; [done|]. split; [by eapply set_transitionsToAdd_trans|]. split.
  - intros r Hr. rewrite createTransition_buffered.
    destruct (decide (r = stateId)); [done|]. by apply Hother.
  - rewrite createTransition_buffered. destruct (decide (stateId = stateId)); [|done].
    rewrite length_app. cbn. lia.
Qed.

Lemma fold_connectChoice_rows stateId behavior : forall b flag,
  (fold_left (connectChoice stateId) behavior (b, flag)).2
  = match behavior with [] => flag | _ :: _ => true end
  /\ (fold_left (connectChoice stateId) behavior (b, flag)).1
     = set_transitionsToAdd
         (transitionsToAdd (fold_left (connectChoice stateId) behavior (b, flag)).1) b
  /\ (forall r, r <> stateId ->
        buffered (fold_left (connectChoice stateId) behavior (b, flag)).1 r = buffered b r)
  /\ (length (buffered b stateId) + length behavior
      <= length (buffered (fold_left (connectChoice stateId) behavior (b, flag)).1 stateId))%nat.
Proof.
  induction behavior as [|choice rest IH]; intros b flag; cbn [fold_left length].
  - cbn. rewrite set_transitionsToAdd_same. split; [done|]. split; [done|]. split; [done|lia].
  - destruct (connectChoice_rows stateId b flag choice) as (Hflag & Hshape & Hother & Hlen).
    destruct (connectChoice stateId (b, flag) choice) as [b1 flag1]. cbn [fst snd] in *.
    subst flag1.
    destruct (IH b1 true) as (Hflag2 & Hshape2 & Hother2 & Hlen2).
    split; [rewrite Hflag2; by destruct rest|].
    split; [by eapply set_transitionsToAdd_trans|]. split.
    + intros r Hr. rewrite Hother2 by done. by apply Hother.
    + lia.
Qed.

Lemma expandChoices_length {S : Type} (cb : Callback S) cs : forall b,
  length (expandChoices cb cs b).1 = length cs.
Proof.
  induction cs as [|c cs IH]; intros b; [done|].
  cbn. destruct (expandChoice cb c b) as [c1 b1]. specialize (IH b1).
  destruct (expandChoices cb cs b1) as [rest b2]. cbn in *. by rewrite IH.
Qed.

(** X14.  [connectTerminalStatesToAbsorbing] returns for every
    callback: its final [errorAndExit] is never reached.  Without
    behaviour it prints a warning and buffers nothing.  With behaviour
    it changes, after the callback's own effects, the buffer only, and
    there only the row of [stateId], which gains at least one
    transition per choice. *)
Theorem connectTerminalStatesToAbsorbing_never_exits (g : Generator)
    (terminalState : CompressedState) (stateId : StateType)
    (stateToIdCallback : Callback State) (b : State) :
  let b1 := log (OracleExpand terminalState) (log (OracleLoad terminalState) b) in
  let expanded := expandChoices stateToIdCallback (behaviour g terminalState) b1 in
  exists b',
    connectTerminalStatesToAbsorbing g terminalState stateId stateToIdCallback b = Return tt b'
    /\ (behaviour g terminalState = [] ->
        b' = log (warning "Behavior for perimeter state was empty!") b1)
    /\ (behaviour g terminalState <> [] ->
        b' = set_transitionsToAdd (transitionsToAdd b') expanded.2
        /\ (forall r, r <> stateId -> buffered b' r = buffered expanded.2 r)
        /\ (length (buffered expanded.2 stateId) + length (behaviour g terminalState)
            <= length (buffered b' stateId))%nat).
Proof.
  cbn zeta. unfold connectTerminalStatesToAbsorbing.
  set (b1 := log (OracleExpand terminalState) (log (OracleLoad terminalState) b)).
  destruct (behaviour g terminalState) as [|c cs] eqn:Hbeh.
  { cbn [expandChoices]. eexists. split; [reflexivity|]. done. }
  rewrite <- Hbeh.
  pose proof (expandChoices_length stateToIdCallback (behaviour g terminalState) b1) as Hlen.
  destruct (expandChoices stateToIdCallback (behaviour g terminalState) b1)
    as [behavior b2]. cbn [fst snd] in *.
  destruct behavior as [|choice rest]; [rewrite Hbeh in Hlen; discriminate|].
  destruct (fold_connectChoice_rows stateId (choice :: rest) b2 false)
    as (Hflag & Hshape & Hother & Hrows).
  destruct (fold_left (connectChoice stateId) (choice :: rest) (b2, false)) as [b3 flag].
  cbn [fst snd] in *. subst flag. cbn [negb].
  eexists. split; [reflexivity|]. split.
  - intros Hempty. rewrite Hempty in Hbeh. discriminate.
  - intros _. rewrite <- Hlen. done.
Qed.

(** *** [fresh] and [reset] *)

Lemma setUpAbsorbingState_fresh g b :
  fresh (finalState (setUpAbsorbingState g b)) = fresh b.
Proof.
  unfold setUpAbsorbingState.
  destruct (absorbingWasSetUp b); [done|]. destruct (firstIteration b); [|done].
  destruct (List.find _ _) as [variable|]; [|done].
  cbn [absorbingState set_absorbingState set_stateRemapping].
  destruct (bool_decide _); cbn [negb]; [|done].
  destruct (findOrAdd _ 0 _) as [actualIndex m].
  by destruct (N.eqb actualIndex 0).
Qed.

Lemma connectTerminalStatesToAbsorbing_fresh g terminalState stateId
    (stateToIdCallback : Callback State) b :
  fresh (finalState (connectTerminalStatesToAbsorbing g terminalState stateId
                       stateToIdCallback b))
  = fresh (expandChoices stateToIdCallback (behaviour g terminalState)
             (log (OracleExpand terminalState) (log (OracleLoad terminalState) b))).2.
Proof.
  unfold connectTerminalStatesToAbsorbing.
  destruct (expandChoices _ _ _) as [behavior b2]. cbn [snd].
  destruct behavior as [|choice rest]; [done|].
  destruct (fold_connectChoice_rows stateId (choice :: rest) b2 false) as (Hflag & Hshape & _).
  destruct (fold_left (connectChoice stateId) (choice :: rest) (b2, false)) as [b3 flag].
  cbn [fst snd] in *. subst flag. cbn [negb finalState]. by rewrite Hshape.
Qed.

Lemma call_fresh g c b : fresh (finalState (call g c b)) = fresh b.
Proof.
  destruct c as [| |state|state|from to_ p|terminalState stateId]; cbn [call finalState].
  - apply setUpAbsorbingState_fresh.
  - unfold reset. by destruct (fresh b) eqn:E.
  - unfold getOrAddStateIndex. by destruct (findOrAdd _ _ _).
  - by rewrite getStateIndexOrAbsorbing_eq.
  - done.
  - rewrite connectTerminalStatesToAbsorbing_fresh. by rewrite expandChoices_terminal.
Qed.

(** X15.  No function of the base class clears [fresh], so on a
    builder as the constructor leaves it [reset] does nothing: in any
    sequence of calls the [reset] calls can be dropped, the outcome is
    the same, and [fresh] is still set at the end. *)
Theorem reset_is_void_on_fresh_builders (g : Generator) (calls : list Call) (b : State) :
  fresh b = true ->
  run g calls b = run g (List.filter (fun c => negb (isReset c)) calls) b
  /\ fresh (finalState (run g calls b)) = true.
Proof.
  revert b. induction calls as [|c calls IH]; intros b Hfresh; [done|].
  destruct (decide (isReset c = true)) as [Hreset|Hother].
  - destruct c; try discriminate. cbn [List.filter isReset negb run call].
    unfold reset. rewrite Hfresh. by apply IH.
  - assert (Hkeep : negb (isReset c) = true) by (by destruct (isReset c)).
    cbn [List.filter]. rewrite Hkeep. cbn [run].
    pose proof (call_fresh g c b) as Hcall.
    destruct (call g c b) as [[] b1|text b1|what b1]; cbn [finalState] in *.
    + apply IH. by rewrite Hcall.
    + split; [done|]. by rewrite Hcall.
    + split; [done|]. by rewrite Hcall.
Qed.

Lemma reset_is_void_on_fresh_builders_witness :
  let g := exampleGenerator CTMC [stateA] in
  run g [CallSetUpAbsorbingState; CallGetOrAddStateIndex stateA; CallReset;
         CallSetUpAbsorbingState; CallCreateTransition 1 0 1%float] initial
  = run g [CallSetUpAbsorbingState; CallGetOrAddStateIndex stateA;
           CallSetUpAbsorbingState; CallCreateTransition 1 0 1%float] initial.
Proof.
  cbn zeta.
  destruct (reset_is_void_on_fresh_builders (exampleGenerator CTMC [stateA])
              [CallSetUpAbsorbingState; CallGetOrAddStateIndex stateA; CallReset;
               CallSetUpAbsorbingState; CallCreateTransition 1 0 1%float] initial eq_refl)
    as [Hrun _].
  exact Hrun.
Defined.

End BuilderExtra.

(** ** More on the property expression *)
Module PropertyExtra.
Import PropertyMembers.

Section Members.
Context {Formula Expression ExpressionManager : Type}.
Variable toExpression : Formula -> ExpressionManager -> Expression + string.

Lemma run_keeps_expression (cs : list Call) : forall b : State,
  formulaIsSet b ->
  exists o, run toExpression cs b = Some o
            /\ getPropertyExpression (finalState o) = getPropertyExpression b.
Proof.
  induction cs as [|c cs IH]; intros b Hset; cbn [run].
  - by eexists.
  - destruct c as [formula manager|].
    + destruct (IH (setPropertyFormula (Some formula) manager b)) as (o & Hrun & Hexpr).
      { intros _. cbn. by split. }
      exists o. split; [exact Hrun|exact Hexpr].
    + unfold loadPropertyExpressionFromFormula.
      destruct (formulaMatchesExpression b) eqn:Hmatch.
      { apply IH. done. }
      destruct (Hset Hmatch) as [[formula Hf] [manager Hm]]. rewrite Hf, Hm.
      destruct (toExpression formula manager) as [pExpression|what].
      * match goal with |- context [run toExpression cs ?b'] =>
          destruct (IH b') as (o & Hrun & Hexpr); [done|] end.
        exists o. split; [exact Hrun|exact Hexpr].
      * by eexists.
Qed.

(** X16.  [getPropertyExpression] returns the null pointer after any
    sequence of [setPropertyFormula] and
    [loadPropertyExpressionFromFormula] calls on a new builder:
    the expression [loadPropertyExpressionFromFormula] makes is dropped
    and never stored.  With non-null formulas no call dereferences a
    null pointer, and on a new builder
    [loadPropertyExpressionFromFormula] returns at once, a formula or
    not. *)
Theorem getPropertyExpression_stays_null (cs : list Call)
    (expressionManager_ : option ExpressionManager) :
  exists o,
    run toExpression cs (initial expressionManager_) = Some o
    /\ getPropertyExpression (finalState o) = None
    /\ loadPropertyExpressionFromFormula toExpression (initial expressionManager_)
       = Some (Return tt (initial expressionManager_)).
Proof.
  destruct (run_keeps_expression cs (initial expressionManager_)) as (o & Hrun & Hexpr);
    [done|].
  exists o. by repeat split.
Qed.

End Members.
End PropertyExtra.

(** ** The expansion of a state by the first explorer *)
Module ExpansionTheory.
Import Legacy LegacyTheory LegacyExtra.

(** *** The estimates through an expansion *)

Lemma addTransition_piMap currentIndex row b es pair :
  piMap (addTransition currentIndex row (b, es) pair).1 = propagateOne currentIndex (piMap b) pair.
Proof.
  destruct pair as [sPrime r]. unfold addTransition, propagateOne. cbn [fst snd].
  rewrite !piAt_insert_if_absent, insert_insert_if_absent.
  by destruct (negb _).
Qed.

Lemma fold_addTransition_piMap currentIndex row choice : forall b es,
  piMap (fold_left (addTransition currentIndex row) choice (b, es)).1
  = fold_left (propagateOne currentIndex) choice (piMap b).
Proof.
  induction choice as [|pair choice IH]; intros b es; [done|].
  cbn [fold_left].
  pose proof (addTransition_piMap currentIndex row b es pair) as Hone.
  destruct (addTransition currentIndex row (b, es) pair) as [b1 es1]. cbn [fst] in Hone.
  by rewrite IH, Hone.
Qed.

Lemma addChoices_piMap currentIndex behavior : forall b mb,
  piMap (addChoices currentIndex behavior b mb).1 = propagate currentIndex behavior (piMap b).
Proof.
  unfold propagate.
  induction behavior as [|choice rest IH]; intros b mb; [done|].
  cbn [addChoices concat]. rewrite fold_left_app.
  pose proof (fold_addTransition_piMap currentIndex (currentRow mb) choice b (entries mb)) as Hc.
  destruct (fold_left _ choice (b, entries mb)) as [b1 es]. cbn [fst] in Hc.
  by rewrite IH, Hc.
Qed.

Lemma piAt_insert pm k v k' :
  piAt (<[k := v]> pm) k' = if decide (k = k') then v else piAt pm k'.
Proof.
  unfold piAt. destruct (decide (k = k')) as [->|Hne].
  - by rewrite lookup_insert_eq.
  - by rewrite lookup_insert_ne.
Qed.

Lemma propagateOne_piAt currentIndex pm1 pm2 pair :
  (forall k, piAt pm1 k = piAt pm2 k) ->
  forall k, piAt (propagateOne currentIndex pm1 pair) k
            = piAt (propagateOne currentIndex pm2 pair) k.
Proof.
  intros Heq k. unfold propagateOne. rewrite !piAt_insert, !Heq. done.
Qed.

Lemma fold_propagateOne_piAt currentIndex pairs : forall pm1 pm2,
  (forall k, piAt pm1 k = piAt pm2 k) ->
  forall k, piAt (fold_left (propagateOne currentIndex) pairs pm1) k
            = piAt (fold_left (propagateOne currentIndex) pairs pm2) k.
Proof.
  induction pairs as [|pair pairs IH]; intros pm1 pm2 Heq; [done|].
  cbn [fold_left]. apply IH. by apply propagateOne_piAt.
Qed.



(** Everything the claims say about the expansion of a state. *)
Lemma exploreState_propagates g kappa currentState_ currentIndex b mb :
  currentIndex ∉ tSet b \/ PrimFloat.ltb (piAt (piMap b) currentIndex) kappa = false ->
  behaviour g currentState_ <> [] ->
  exists b' behavior,
    exploreState g kappa currentState_ currentIndex b mb
    = Return tt (b', mkMatrixBuilder
                       (entries mb ++ behaviorEntries (currentRow mb) behavior)
                       (currentRow mb + N.of_nat (length behavior))
                       (currentRowGroup mb + 1))
    /\ Forall2 (Forall2 (resolved (stateToId b'))) (behaviour g currentState_) behavior
    /\ (forall k, piAt (piMap b') k
                  = piAt (<[currentIndex := 0%float]>
                            (propagate currentIndex behavior (piMap b))) k)
    /\ oracleCalls (trace b') = oracleCalls (trace b) ++ [currentState_]
    /\ tSet b' = tSet b.
Proof.
  intros Hexpand Hbeh. rewrite exploreState_not_skipped by done. cbn zeta.
  pose proof (exploreState_prepared currentIndex b) as Hprep. cbn zeta in Hprep.
  set (b1 := if N.eqb (currentIndex mod 100000) 0 then _ else b) in *.
  set (b2 := set_piMap (piMap_insert_if_absent currentIndex (piMap b1)) b1) in *.
  set (b3 := log (OracleExpand currentState_) (log (OracleLoad currentState_) b2)).
  destruct Hprep as (Ht2 & _ & Hcalls2 & _).
  assert (Hpi3 : forall k, piAt (piMap b3) k = piAt (piMap b) k).
  { intros k. cbn [b3 b2 piMap log set_piMap]. rewrite piAt_insert_if_absent.
    subst b1. by destruct (N.eqb _ _). }
  assert (Hcalls3 : oracleCalls (trace b3) = oracleCalls (trace b) ++ [currentState_]).
  { cbn [b3 trace log]. rewrite !oracleCalls_app. cbn [oracleCalls].
    by rewrite Hcalls2, !app_nil_r. }
  pose proof (expandChoices_related callbackStep getOrAddStateIndex callbackStep_refl
                callbackStep_trans getOrAddStateIndex_step (behaviour g currentState_) b3)
    as (Hframe & _ & Hpi & _).
  pose proof (expandChoices_resolved (behaviour g currentState_) b3) as Hres.
  destruct (expandChoices getOrAddStateIndex (behaviour g currentState_) b3)
    as [behavior b4].
  cbn [fst snd] in *.
  unfold callbackFrame in Hframe.
  injection Hframe as _ Ht4 _ _ _ _ Hcalls4.
  assert (Hpi4 : forall k, piAt (piMap b4) k = piAt (piMap b) k).
  { intros k. by rewrite Hpi, Hpi3. }
  assert (Hcalls : oracleCalls (trace b4) = oracleCalls (trace b) ++ [currentState_])
    by (by rewrite Hcalls4).
  assert (Ht : tSet b4 = tSet b) by (rewrite Ht4; exact Ht2).
  clear Hpi Hpi3 Hcalls3 Hcalls4 Ht4 Ht2 Hcalls2.
  destruct behavior as [|choice rest].
  { inversion Hres as [Hnil|]. congruence. }
  set (b5 := if negb (PrimFloat.eqb (piAt (piMap b4) currentIndex) 0%float)
                && set_contains (tMap b4) currentIndex
             then set_tMap (tMap b4 ∖ {[currentIndex]}) b4 else b4).
  assert (Hb5 : stateToId b5 = stateToId b4 /\ piMap b5 = piMap b4
                /\ tSet b5 = tSet b4 /\ trace b5 = trace b4).
  { subst b5. by destruct (_ && _). }
  destruct Hb5 as (Hid5 & Hpi5 & Ht5 & Htr5).
  pose proof (addChoices_entries currentIndex (choice :: rest) b5 mb) as Hentries.
  pose proof (addChoices_frame currentIndex (choice :: rest) b5 mb) as Hf6.
  pose proof (addChoices_piMap currentIndex (choice :: rest) b5 mb) as Hpi6.
  destruct (addChoices currentIndex (choice :: rest) b5 mb) as [b6 mb'].
  cbn [fst snd] in *. subst mb'. unfold expansionFrame in Hf6.
  injection Hf6 as Hid6 _ Ht6 _ _ _ _ Htr6.
  eexists _, (choice :: rest). split; [reflexivity|].
  cbn [stateToId piMap tSet trace set_piMap].
  split; [by rewrite Hid6, Hid5|]. split.
  { intros k. rewrite !piAt_insert. destruct (decide (currentIndex = k)); [done|].
    rewrite Hpi6, Hpi5. unfold propagate. by apply fold_propagateOne_piAt. }
  split; [by rewrite Htr6, Htr5|]. by rewrite Ht6, Ht5.
Qed.

(** C1.  A popped state that is in the terminal set and whose
    reachability estimate is strictly below [kappa] is skipped: the
    pass returns with the matrix builder as it was (no row, no entry),
    the generator was neither loaded nor asked to expand (the trace
    gains at most the progress message), and the builder is as it was
    but for a key of [piMap]: the storage, the queue, the terminal
    sets and the value of every estimate are unchanged, and the state
    is still in the terminal set.  A popped state that is not in the
    terminal set, or whose estimate is at least [kappa], is expanded:
    the generator is asked, once, for that state; without behaviour
    the pass ends in the fatal error, and with behaviour it returns
    after writing one matrix row per choice, with the successors'
    indices as columns, after adding to the estimate of every
    successor the product of the expanded state's estimate and the
    transition value, pair by pair, and after resetting the estimate
    of the expanded state to 0; the terminal set is as it was. *)
Theorem exploreState_skips_below_kappa (g : Generator) (kappa : ValueType)
    (currentState_ : CompressedState) (currentIndex : StateType)
    (b : State) (mb : MatrixBuilder) :
  (currentIndex ∈ tSet b /\ PrimFloat.ltb (piAt (piMap b) currentIndex) kappa = true ->
     exists b',
       exploreState g kappa currentState_ currentIndex b mb = Return tt (b', mb)
       /\ b' = mkState (stateToId b) (initialStateIndices b) (piMap b') (tSet b) (tMap b)
                 (stateMap b) (exploredStates b) (statesToExplore b) (currentState b)
                 (trace b')
       /\ trace b' = trace b ++ (if N.eqb (currentIndex mod 100000) 0
                                 then [info ("Exploring state with id "
                                             +:+ pretty currentIndex +:+ ".")]
                                 else [])
       /\ oracleCalls (trace b') = oracleCalls (trace b)
       /\ piMap b' = piMap_insert_if_absent currentIndex (piMap b)
       /\ (forall k, piAt (piMap b') k = piAt (piMap b) k)
       /\ currentIndex ∈ tSet b')
  /\ (currentIndex ∉ tSet b \/ PrimFloat.leb kappa (piAt (piMap b) currentIndex) = true ->
      let o := exploreState g kappa currentState_ currentIndex b mb in
      oracleCalls (trace (finalState o).1) = oracleCalls (trace b) ++ [currentState_]
      /\ (behaviour g currentState_ = [] ->
          exists b', o = Exit (behaviorWasEmpty currentIndex) (b', mb))
      /\ (behaviour g currentState_ <> [] ->
          exists b' behavior,
            o = Return tt (b', mkMatrixBuilder
                                 (entries mb ++ behaviorEntries (currentRow mb) behavior)
                                 (currentRow mb + N.of_nat (length behavior))
                                 (currentRowGroup mb + 1))
            /\ Forall2 (Forall2 (resolved (stateToId b'))) (behaviour g currentState_) behavior
            /\ (forall k, piAt (piMap b') k
                          = piAt (<[currentIndex := 0%float]>
                                    (propagate currentIndex behavior (piMap b))) k)
            /\ tSet b' = tSet b)).
Proof.
  split.
  - intros [Hin Hlt]. unfold exploreState.
    set (b1 := if N.eqb (currentIndex mod 100000) 0 then _ else b).
    set (b2 := set_piMap (piMap_insert_if_absent currentIndex (piMap b1)) b1).
    assert (Hb2 : b2 = mkState (stateToId b) (initialStateIndices b)
                         (piMap_insert_if_absent currentIndex (piMap b)) (tSet b) (tMap b)
                         (stateMap b) (exploredStates b) (statesToExplore b) (currentState b)
                         (trace b ++ (if N.eqb (currentIndex mod 100000) 0
                                      then [info ("Exploring state with id "
                                                  +:+ pretty currentIndex +:+ ".")]
                                      else []))).
    { subst b2 b1. destruct (N.eqb _ _); [done|]. rewrite app_nil_r. by destruct b. }
    assert (Hskip : set_contains (tSet b2) currentIndex
                    && PrimFloat.ltb (piAt (piMap b2) currentIndex) kappa = true).
    { rewrite Hb2. cbn [tSet piMap]. rewrite piAt_insert_if_absent, Hlt.
      unfold set_contains. by rewrite bool_decide_eq_true_2. }
    rewrite Hskip. exists b2. split; [done|]. rewrite Hb2. cbn [tSet piMap trace].
    split; [done|]. split; [done|]. split.
    { rewrite oracleCalls_app. destruct (N.eqb _ _); cbn; by rewrite app_nil_r. }
    split; [done|]. split; [intros k; apply piAt_insert_if_absent|done].
  - intros Hge. cbn zeta.
    assert (Hexpand : currentIndex ∉ tSet b
                      \/ PrimFloat.ltb (piAt (piMap b) currentIndex) kappa = false).
    { destruct Hge as [Hnot|Hge]; [by left|right; by apply leb_not_ltb]. }
    split; [by apply exploreState_asks_once|]. split.
    + intros Hbeh. rewrite exploreState_not_skipped by done. rewrite Hbeh. cbn.
      by eexists.
    + intros Hbeh.
      destruct (exploreState_propagates g kappa currentState_ currentIndex b mb Hexpand Hbeh)
        as (b' & behavior & Hrun & Hres & Hpi & _ & Ht).
      by exists b', behavior.
Qed.

(** *** The rates *)




End ExpansionTheory.

(** ** The absorbing state through a build *)
Module ExplorerTheory.
Import Builder BuilderTheory BuilderExtra.

(** *** The index store during a pass *)





(** *** One pair *)








(** *** The expansion step *)





(** *** The pass *)



(** *** The start *)








(** *** The handler and the flush *)






End ExplorerTheory.
